(** * Clipforge front end: the page component and its two proxy routes

    A shallow embedding of
      - [frontend/app/page.tsx]                   (module [Page]),
      - [frontend/app/api/status/[jobId]/route.ts] (module [StatusRoute]),
      - [frontend/app/api/generate/route.ts]       (module [GenerateRoute]),
    together with the parts of the Python back end that the specification
    describes but whose code is not part of the sources (module [Backend]).

    Conventions.
      - A JavaScript string is the list of its UTF-16 code units, so that
        [length] is [String.prototype.length].
      - React state is a record; a handler is a function from the state to
        the new state and the list of effects (requests, timer operations) it
        performed.  What the network answers is an argument of the handler.
      - The component changes by events.  Module [Page] has the events of
        the in-step schedule: a click runs a handler up to its first [await];
        the answer to a submission arrives while the component waits for it;
        a firing of the interval together with the answer to its request is
        one event, which occurs only while the interval is set.  Module
        [Async] has the events of the page as it runs: the requests under
        way and the intervals that run are kept, every running interval
        fires, and each request is answered whenever its answer arrives,
        whatever the state is by then. *)

From Stdlib Require Import ZArith NArith List String Ascii Bool Lia.
From Stdlib Require Import QArith Sorted Permutation DecimalString.
Import ListNotations.

Set Warnings "-register-all".
Local Open Scope Z_scope.

(* ------------------------------------------------------------------------- *)
(** ** JavaScript strings                                                     *)
(* ------------------------------------------------------------------------- *)

Module Js.

(** A string value: its UTF-16 code units. *)
Definition jsstring := list N.

(** A literal of the source text (all literals of the program are ASCII). *)
Definition lit (s : string) : jsstring :=
  List.map N_of_ascii (list_ascii_of_string s).

Definition code_eqb (a b : N) : bool := N.eqb a b.

Fixpoint str_eqb (a b : jsstring) : bool :=
  match a, b with
  | [], [] => true
  | x :: a', y :: b' => code_eqb x y && str_eqb a' b'
  | _, _ => false
  end.

(** [s.startsWith(p)] *)
Fixpoint startsWith (s p : jsstring) {struct p} : bool :=
  match p with
  | [] => true
  | c :: p' =>
      match s with
      | [] => false
      | d :: s' => code_eqb d c && startsWith s' p'
      end
  end.

(** ECMAScript WhiteSpace and LineTerminator code points, the ones
    [String.prototype.trim] removes.  All of them are in the basic plane. *)
Definition isWhiteSpace (c : N) : bool :=
  ((c =? 9) || (c =? 10) || (c =? 11) || (c =? 12) || (c =? 13) ||
   (c =? 32) || (c =? 160) || (c =? 5760) ||
   ((8192 <=? c) && (c <=? 8202)) ||
   (c =? 8232) || (c =? 8233) || (c =? 8239) || (c =? 8287) ||
   (c =? 12288) || (c =? 65279))%N.

Fixpoint trimStart (s : jsstring) : jsstring :=
  match s with
  | [] => []
  | c :: r => if isWhiteSpace c then trimStart r else s
  end.

Definition trimEnd (s : jsstring) : jsstring := rev (trimStart (rev s)).

(** [s.trim()] *)
Definition trim (s : jsstring) : jsstring := trimEnd (trimStart s).

(** Truthiness of a string: the empty string is the only falsy one. *)
Definition truthy (s : jsstring) : bool :=
  match s with [] => false | _ :: _ => true end.

(** [`${n}`] for an integer [n]. *)
Definition ofInt (n : Z) : jsstring := lit (NilZero.string_of_int (Z.to_int n)).

Definition whitespaceOnly (s : jsstring) : Prop := Forall (fun c => isWhiteSpace c = true) s.

End Js.

Import Js.

(* ------------------------------------------------------------------------- *)
(** ** What the network returns to a caller of [fetch]                        *)
(* ------------------------------------------------------------------------- *)

(** The outcome of [await res.json()] read at a TypeScript type [A]:
    the promise rejects, or the body is the JSON value [null], or it is a
    value of the type. *)
Inductive Parsed (A : Type) : Type :=
| JsonThrows (msg : jsstring)
| JsonNull
| JsonValue (a : A).
Arguments JsonThrows {A} msg.
Arguments JsonNull {A}.
Arguments JsonValue {A} a.

(** The outcome of [await fetch(...)] followed by [await res.json()]:
    [fetch] rejects (network failure), or a response with a status code
    arrives. *)
Inductive Reply (A : Type) : Type :=
| NetworkError (msg : jsstring)
| Response (status : Z) (body : Parsed A).
Arguments NetworkError {A} msg.
Arguments Response {A} status body.

(** [res.ok]: the status is in the range 200-299. *)
Definition ok (status : Z) : bool := (200 <=? status) && (status <=? 299).

(* ------------------------------------------------------------------------- *)
(** ** JSON values, as [JSON.parse] produces them                             *)
(* ------------------------------------------------------------------------- *)

Module Json.

(** Numbers are kept as integers: the only numeric field of the API,
    [progress], is an integer percentage, and the routes never compute with
    numbers. *)
Inductive json : Type :=
| JNull
| JBool (b : bool)
| JNum (n : Z)
| JStr (s : jsstring)
| JArr (items : list json)
| JObj (fields : list (jsstring * json)).

(** The result of a property read [d.k]. *)
Inductive Access : Type :=
| Throws            (* TypeError: cannot read properties of null *)
| Undefined
| Value (v : json).

Fixpoint lookup (k : jsstring) (fields : list (jsstring * json)) : option json :=
  match fields with
  | [] => None
  | (k', v) :: rest => if str_eqb k' k then Some v else lookup k rest
  end.

(** [d.k] for one of the two keys the routes read, [url] and [text]:
    neither is a property of a boolean, number, string or array. *)
Definition getProp (d : json) (k : jsstring) : Access :=
  match d with
  | JNull => Throws
  | JObj fields =>
      match lookup k fields with
      | Some v => Value v
      | None => Undefined
      end
  | _ => Undefined
  end.

(** [d.k = v] on an object: the value is replaced where the key stands (a
    new key goes last).  The keys of a parsed object are distinct. *)
Fixpoint assign (k : jsstring) (v : json) (fields : list (jsstring * json))
  : list (jsstring * json) :=
  match fields with
  | [] => [(k, v)]
  | (k', v') :: rest =>
      if str_eqb k' k then (k', v) :: rest else (k', v') :: assign k v rest
  end.

Definition setProp (d : json) (k : jsstring) (v : json) : json :=
  match d with
  | JObj fields => JObj (assign k v fields)
  | _ => d
  end.

(** Truthiness of a value. *)
Definition truthy (v : json) : bool :=
  match v with
  | JNull => false
  | JBool b => b
  | JNum n => negb (n =? 0)
  | JStr s => Js.truthy s
  | JArr _ => true
  | JObj _ => true
  end.

End Json.

(* ------------------------------------------------------------------------- *)
(** ** The two proxy routes                                                   *)
(* ------------------------------------------------------------------------- *)

(** What the route's own [fetch] to the back end yields, followed by
    [await upstream.json()]: the request fails, or a response arrives whose
    body does not parse ([None]; this includes the statuses that carry no
    body), or one whose body parses. *)
Inductive Upstream : Type :=
| Unreachable
| Replied (status : Z) (body : option Json.json).

(** [NextResponse.json(body, { status })] *)
Record HttpResponse : Type := respond { resBody : Json.json; resStatus : Z }.

(** The request a route sends to the back end. *)
Record UpstreamRequest : Type :=
  { reqMethod : jsstring; reqUrl : jsstring; reqBody : option Json.json }.

Module StatusRoute.
Import Json.

(** [process.env.NEXT_PUBLIC_BACKEND_URL ?? "http://localhost:8000"] *)
Definition BACKEND_URL (env : option jsstring) : jsstring :=
  match env with
  | Some v => v
  | None => lit "http://localhost:8000"
  end.

Definition unreachable : HttpResponse :=
  respond (JObj [(lit "error", JStr (lit "Could not reach the backend."))]) 502.

(** "Rewrite relative video URL -> absolute backend URL".  [None] when the
    statement throws (a [null] body, or a truthy [url] that is not a string
    and so has no [startsWith]). *)
Definition rewriteUrl (env : option jsstring) (data : json) : option json :=
  match getProp data (lit "url") with
  | Throws => None
  | Undefined => Some data
  | Value v =>
      if truthy v then
        match v with
        | JStr u =>
            if negb (startsWith u (lit "http"))
            then Some (setProp data (lit "url") (JStr (BACKEND_URL env ++ u)))
            else Some data
        | _ => None
        end
      else Some data
  end.

(** [GET(_request, { params })]: the request sent to the back end (it is
    attempted in every run) and the response of the route. *)
Definition GET (env : option jsstring) (jobId : jsstring) (up : Upstream)
  : UpstreamRequest * HttpResponse :=
  let request :=
    {| reqMethod := lit "GET";
       reqUrl := BACKEND_URL env ++ lit "/jobs/" ++ jobId;
       reqBody := None |} in
  match up with
  | Unreachable => (request, unreachable)
  | Replied status None => (request, unreachable)
  | Replied status (Some data) =>
      match rewriteUrl env data with
      | Some data' => (request, respond data' status)
      | None => (request, unreachable)
      end
  end.

End StatusRoute.

Module GenerateRoute.
Import Json.

(** [process.env.NEXT_PUBLIC_BACKEND_URL ?? "http://localhost:8000"] *)
Definition raw (env : option jsstring) : jsstring :=
  match env with
  | Some v => v
  | None => lit "http://localhost:8000"
  end.

(** [raw.startsWith("http") ? raw : `https://${raw}`] *)
Definition BACKEND_URL (env : option jsstring) : jsstring :=
  if startsWith (raw env) (lit "http") then raw env
  else lit "https://" ++ raw env.

Definition unreachable : HttpResponse :=
  respond
    (JObj [(lit "error", JStr (lit "Could not reach the backend. Is it running?"))])
    502.

(** [{ text: body.text }] after [JSON.stringify]: a key whose value is
    [undefined] is left out.  [None] when reading [body.text] throws. *)
Definition forwarded (body : json) : option json :=
  match getProp body (lit "text") with
  | Throws => None
  | Undefined => Some (JObj [])
  | Value v => Some (JObj [(lit "text", v)])
  end.

(** [POST(request)]: [body] is [None] when [request.json()] rejects.  The
    result lists the requests sent to the back end and gives the response of
    the route. *)
Definition POST (env : option jsstring) (body : option json) (up : Upstream)
  : list UpstreamRequest * HttpResponse :=
  match body with
  | None => ([], unreachable)
  | Some body =>
      match forwarded body with
      | None => ([], unreachable)
      | Some payload =>
          let request :=
            {| reqMethod := lit "POST";
               reqUrl := BACKEND_URL env ++ lit "/jobs";
               reqBody := Some payload |} in
          match up with
          | Unreachable => ([request], unreachable)
          | Replied status None => ([request], unreachable)
          | Replied status (Some data) => ([request], respond data status)
          end
      end
  end.

End GenerateRoute.

(** ** The routes as pure relays, and sample bodies *)

Module Proxy.
Import Json.

(** The proxy layer is a pure pass-through: whenever the back end answers
    with a JSON body, the body a route returns is that body. *)
Definition passThrough : Prop :=
  forall (env : option jsstring) (code : Z) (data : json),
    (forall jobId,
       resBody (snd (StatusRoute.GET env jobId (Replied code (Some data)))) = data)
    /\ (forall body payload,
          GenerateRoute.forwarded body = Some payload ->
          resBody (snd (GenerateRoute.POST env (Some body) (Replied code (Some data))))
          = data).

(** A URL carries a protocol prefix. *)
Definition hasProtocol (url : jsstring) : bool :=
  startsWith url (lit "http://") || startsWith url (lit "https://").

(** The body of the back end's answer for a job it does not know. *)
Definition notFoundBody : json :=
  JObj [(lit "detail", JStr (lit "Job not found"))].

(** The snapshot of a finished job, with the relative location of the video. *)
Definition doneBody : json :=
  JObj [(lit "status", JStr (lit "done")); (lit "progress", JNum 100);
        (lit "url", JStr (lit "/videos/j1.mp4"))].

(** The same snapshot as the status route returns it. *)
Definition doneBodyRewritten : json :=
  JObj [(lit "status", JStr (lit "done")); (lit "progress", JNum 100);
        (lit "url", JStr (lit "http://localhost:8000/videos/j1.mp4"))].

(** A submission with a field besides [text]. *)
Definition submission : json :=
  JObj [(lit "text", JStr (lit "hi")); (lit "voice", JStr (lit "onyx"))].

Definition acceptedBody : json := JObj [(lit "jobId", JStr (lit "j1"))].

End Proxy.

(* ------------------------------------------------------------------------- *)
(** ** The page component                                                     *)
(* ------------------------------------------------------------------------- *)

Module Page.

Definition MAX_CHARS : Z := 2200.

Inductive AppState : Type := idle | pending | processing | done | error.

(** The [status] field of [PollResponse]. *)
Inductive JobStatus : Type := job_pending | job_processing | job_done | job_error.

(** [interface PollResponse]; a field is [None] when it is absent or [null]. *)
Record PollResponse : Type :=
  { pr_status : JobStatus;
    pr_progress : option Z;
    pr_message : option jsstring;
    pr_url : option jsstring;
    pr_error : option jsstring }.

(** The body of the answer to the submission, at the fields the handler
    reads: [jobId], [detail], [error]. *)
Record GenerateResponse : Type :=
  { gr_jobId : option jsstring;
    gr_detail : option jsstring;
    gr_error : option jsstring }.

(** The [useState] cells and the [pollRef] cell.  [pollRef] holds the running
    interval, identified by the job identifier its callback polls. *)
Record Client : Type :=
  { script : jsstring;
    appState : AppState;
    progress : Z;
    statusMessage : jsstring;
    videoUrl : option jsstring;
    errorMsg : option jsstring;
    pollRef : option jsstring }.

Inductive Effect : Type :=
| FetchStatus (jobId : jsstring)       (* fetch(`/api/status/${jobId}`) *)
| FetchGenerate (text : jsstring)      (* fetch("/api/generate", POST {text}) *)
| SetInterval (jobId : jsstring)       (* setInterval(() => pollStatus(jobId), 2000) *)
| ClearInterval (jobId : jsstring).    (* clearInterval(pollRef.current) *)

Definition Handler : Type := Client -> Client * list Effect.

Definition skip : Handler := fun st => (st, []).

Definition andThen (h k : Handler) : Handler :=
  fun st => (fst (k (fst (h st))), snd (h st) ++ snd (k (fst (h st)))).

Notation "h ;; k" := (andThen h k) (at level 61, right associativity).

Definition emit (e : Effect) : Handler := fun st => (st, [e]).

Definition setScript (v : jsstring) : Handler := fun st =>
  ({| script := v; appState := appState st; progress := progress st;
      statusMessage := statusMessage st; videoUrl := videoUrl st;
      errorMsg := errorMsg st; pollRef := pollRef st |}, []).

Definition setAppState (v : AppState) : Handler := fun st =>
  ({| script := script st; appState := v; progress := progress st;
      statusMessage := statusMessage st; videoUrl := videoUrl st;
      errorMsg := errorMsg st; pollRef := pollRef st |}, []).

Definition setProgress (v : Z) : Handler := fun st =>
  ({| script := script st; appState := appState st; progress := v;
      statusMessage := statusMessage st; videoUrl := videoUrl st;
      errorMsg := errorMsg st; pollRef := pollRef st |}, []).

Definition setStatusMessage (v : jsstring) : Handler := fun st =>
  ({| script := script st; appState := appState st; progress := progress st;
      statusMessage := v; videoUrl := videoUrl st;
      errorMsg := errorMsg st; pollRef := pollRef st |}, []).

Definition setVideoUrl (v : option jsstring) : Handler := fun st =>
  ({| script := script st; appState := appState st; progress := progress st;
      statusMessage := statusMessage st; videoUrl := v;
      errorMsg := errorMsg st; pollRef := pollRef st |}, []).

Definition setErrorMsg (v : option jsstring) : Handler := fun st =>
  ({| script := script st; appState := appState st; progress := progress st;
      statusMessage := statusMessage st; videoUrl := videoUrl st;
      errorMsg := v; pollRef := pollRef st |}, []).

Definition setPollRef (v : option jsstring) : Handler := fun st =>
  ({| script := script st; appState := appState st; progress := progress st;
      statusMessage := statusMessage st; videoUrl := videoUrl st;
      errorMsg := errorMsg st; pollRef := v |}, []).

(* ---- Polling ------------------------------------------------------------ *)

Definition stopPolling : Handler := fun st =>
  match pollRef st with
  | Some j => (emit (ClearInterval j) ;; setPollRef None) st
  | None => skip st
  end.

(** [x ?? d] *)
Definition orElse {A : Type} (x : option A) (d : A) : A :=
  match x with Some v => v | None => d end.

Definition pollStatus (jobId : jsstring) (reply : Reply PollResponse) : Handler :=
  emit (FetchStatus jobId) ;;
  match reply with
  | NetworkError _ => skip                       (* catch: keep polling *)
  | Response code body =>
      if negb (ok code) then skip                (* if (!res.ok) return *)
      else
        match body with
        | JsonThrows _ => skip                   (* catch *)
        | JsonNull => skip                       (* data.progress throws; catch *)
        | JsonValue data =>
            setProgress (orElse (pr_progress data) 0) ;;
            (if Js.truthy (orElse (pr_message data) [])
             then setStatusMessage (orElse (pr_message data) [])
             else skip) ;;
            match pr_status data with
            | job_done =>
                stopPolling ;; setAppState done ;; setVideoUrl (pr_url data)
            | job_error =>
                stopPolling ;; setAppState error ;;
                setErrorMsg
                  (Some (orElse (pr_error data) (lit "An unknown error occurred.")))
            | _ => skip
            end
        end
  end.

(* ---- Derived state ------------------------------------------------------ *)

Definition isProcessing (st : Client) : bool :=
  match appState st with
  | pending | processing => true
  | _ => false
  end.

Definition charCount (st : Client) : Z := Z.of_nat (List.length (script st)).

Definition isOverLimit (st : Client) : bool := MAX_CHARS <? charCount st.

Definition canGenerate (st : Client) : bool :=
  (0 <? Z.of_nat (List.length (trim (script st))))
  && negb (isProcessing st) && negb (isOverLimit st).

(* ---- Generate ----------------------------------------------------------- *)

(** The [catch] block of [handleGenerate]; every value thrown in the [try]
    block is an [Error], so the message shown is [err.message]. *)
Definition failed (message : jsstring) : Handler :=
  setAppState error ;; setErrorMsg (Some message).

(** The message of the [TypeError] raised by [const { jobId } = data] when
    [data] is [null] (the wording is the engine's). *)
Definition destructureNull : jsstring :=
  lit "Cannot destructure property 'jobId' of 'data' as it is null.".

(** [data?.detail ?? data?.error ?? `Server error ${res.status}`] *)
Definition serverError (data : option GenerateResponse) (code : Z) : jsstring :=
  match data with
  | Some d =>
      orElse (gr_detail d)
        (orElse (gr_error d) (lit "Server error " ++ ofInt code))
  | None => lit "Server error " ++ ofInt code
  end.

(** The interval callback interpolates [jobId] into the URL; an absent
    [jobId] reads as the text [undefined]. *)
Definition jobIdText (d : GenerateResponse) : jsstring :=
  orElse (gr_jobId d) (lit "undefined").

Definition startPolling (jobId : jsstring) : Handler :=
  setAppState processing ;;
  setStatusMessage (lit "Generating voiceover...") ;;
  emit (SetInterval jobId) ;; setPollRef (Some jobId).

(** The guard: [!script.trim() || isProcessing || charCount > MAX_CHARS]. *)
Definition blocked (st : Client) : bool :=
  negb (Js.truthy (trim (script st))) || isProcessing st
  || (MAX_CHARS <? charCount st).

(** [handleGenerate] from the guard to its first [await]: the request is
    sent. *)
Definition submit : Handler := fun st =>
  (stopPolling ;;
   setAppState pending ;;
   setErrorMsg None ;;
   setVideoUrl None ;;
   setProgress 0 ;;
   setStatusMessage (lit "Submitting job...") ;;
   emit (FetchGenerate (script st))) st.

(** [handleGenerate] from the answer on. *)
Definition settle (reply : Reply GenerateResponse) : Handler :=
  match reply with
  | NetworkError msg => failed msg
  | Response code (JsonThrows msg) => failed msg
  | Response code JsonNull =>
      if negb (ok code) then failed (serverError None code)
      else failed destructureNull
  | Response code (JsonValue data) =>
      if negb (ok code) then failed (serverError (Some data) code)
      else startPolling (jobIdText data)
  end.

(** One whole run of [handleGenerate], given the answer the network would
    give. *)
Definition handleGenerate (reply : Reply GenerateResponse) : Handler := fun st =>
  if blocked st then skip st else (submit ;; settle reply) st.

(* ---- Reset -------------------------------------------------------------- *)

Definition handleReset : Handler :=
  stopPolling ;;
  setAppState idle ;;
  setProgress 0 ;;
  setStatusMessage [] ;;
  setVideoUrl None ;;
  setErrorMsg None.

(* ---- The component over time -------------------------------------------- *)

(** The state of the first render. *)
Definition initial : Client :=
  {| script := []; appState := idle; progress := 0; statusMessage := [];
     videoUrl := None; errorMsg := None; pollRef := None |}.

(** What can happen to the component: the user edits the script, clicks
    Generate, the answer to the submission arrives, the user clicks one of
    the two reset buttons, or the interval fires and its request is
    answered. *)
Inductive Event : Type :=
| Typing (text : jsstring)
| ClickGenerate
| Answer (reply : Reply GenerateResponse)
| ClickReset
| Tick (reply : Reply PollResponse).

(** The events of the in-step schedule.  The answer to a submission arrives
    while the component is [pending], the state [handleGenerate] waits in.
    The interval fires only while it is set, and its request is answered at
    once.  Typing and reset are taken to be possible in every state, which
    is more than the page offers.  Answers that arrive later than that are
    events of [Async.fire]. *)
Definition fire (e : Event) (st : Client) : option (Client * list Effect) :=
  match e with
  | Typing text => Some (setScript text st)
  | ClickGenerate => Some (if blocked st then skip st else submit st)
  | Answer reply =>
      match appState st with
      | pending => Some (settle reply st)
      | _ => None
      end
  | ClickReset => Some (handleReset st)
  | Tick reply =>
      match pollRef st with
      | Some jobId => Some (pollStatus jobId reply st)
      | None => None
      end
  end.

Inductive step (st : Client) (e : Event) (st' : Client) : Prop :=
| step_fire (effects : list Effect) :
    fire e st = Some (st', effects) -> step st e st'.

(** The states the component reaches from its first render through events
    that all satisfy [allowed]. *)
Inductive reachableVia (allowed : Event -> Prop) : Client -> Prop :=
| via_initial : reachableVia allowed initial
| via_step (st : Client) (e : Event) (st' : Client) :
    reachableVia allowed st -> allowed e -> step st e st' ->
    reachableVia allowed st'.

Definition anyEvent (e : Event) : Prop := True.

Definition reachable : Client -> Prop := reachableVia anyEvent.

(** The state after a list of events, [None] if one of them cannot occur. *)
Fixpoint run (events : list Event) (st : Client) : option Client :=
  match events with
  | [] => Some st
  | e :: rest =>
      match fire e st with
      | Some (st', _) => run rest st'
      | None => None
      end
  end.

(* ---- Properties of a state ---------------------------------------------- *)

Definition resultOnlyWhenDone (st : Client) : Prop :=
  videoUrl st <> None -> appState st = done.

Definition errorOnlyWhenError (st : Client) : Prop :=
  errorMsg st <> None -> appState st = error.

Definition resultWhenDone (st : Client) : Prop :=
  appState st = done -> videoUrl st <> None.

Definition errorWhenError (st : Client) : Prop :=
  appState st = error -> errorMsg st <> None.

Definition notBoth (st : Client) : Prop :=
  ~ (videoUrl st <> None /\ errorMsg st <> None).

(** The interval runs only while the job is shown as [processing]. *)
Definition pollingOnlyWhenProcessing (st : Client) : Prop :=
  pollRef st <> None -> appState st = processing.

(** What every reachable state satisfies. *)
Definition invariant (st : Client) : Prop :=
  resultOnlyWhenDone st /\ errorOnlyWhenError st /\ errorWhenError st
  /\ pollingOnlyWhenProcessing st.

Definition terminalView (st : Client) : Prop :=
  appState st = done \/ appState st = error.

(** The fetch of a poll failed: it threw, or the response is not ok. *)
Definition failedFetch (reply : Reply PollResponse) : bool :=
  match reply with
  | NetworkError _ => true
  | Response code _ => negb (ok code)
  end.

(** What a poll reads: the body of an ok response that parses to a value. *)
Definition delivered (reply : Reply PollResponse) : option PollResponse :=
  match reply with
  | Response code (JsonValue data) => if ok code then Some data else None
  | _ => None
  end.

(* ---- Sample values ------------------------------------------------------ *)

Definition accepted (jobId : string) : Reply GenerateResponse :=
  Response 202
    (JsonValue {| gr_jobId := Some (lit jobId); gr_detail := None; gr_error := None |}).

Definition reported (s : JobStatus) (p : Z) (url error : option jsstring)
  : Reply PollResponse :=
  Response 200
    (JsonValue {| pr_status := s; pr_progress := Some p; pr_message := None;
                  pr_url := url; pr_error := error |}).

(** A script of 2201 characters. *)
Definition overLong : Client :=
  {| script := repeat 97%N 2201; appState := idle; progress := 0;
     statusMessage := []; videoUrl := None; errorMsg := None; pollRef := None |}.

(** A script made of a space, a tab and a line feed. *)
Definition blank : Client :=
  {| script := [32; 9; 10]%N; appState := idle; progress := 0;
     statusMessage := []; videoUrl := None; errorMsg := None; pollRef := None |}.

(** A job is submitted and being polled. *)
Definition submitted : list Event :=
  [Typing (lit "hi"); ClickGenerate; Answer (accepted "j1")].

Definition polling : Client :=
  {| script := lit "hi"; appState := processing; progress := 0;
     statusMessage := lit "Generating voiceover..."; videoUrl := None;
     errorMsg := None; pollRef := Some (lit "j1") |}.

(** The job is reported [done] by a response that has no [url]. *)
Definition doneWithoutUrl : Client :=
  {| script := lit "hi"; appState := done; progress := 100;
     statusMessage := lit "Generating voiceover..."; videoUrl := None;
     errorMsg := None; pollRef := None |}.

(** The job is reported [done] with its [url]. *)
Definition doneWithUrl : Client :=
  {| script := lit "hi"; appState := done; progress := 100;
     statusMessage := lit "Generating voiceover..."; videoUrl := Some (lit "/videos/j1.mp4");
     errorMsg := None; pollRef := None |}.

(** After Generate is clicked again on [doneWithUrl]. *)
Definition resubmitted : Client :=
  {| script := lit "hi"; appState := pending; progress := 0;
     statusMessage := lit "Submitting job..."; videoUrl := None;
     errorMsg := None; pollRef := None |}.

End Page.

(* ------------------------------------------------------------------------- *)
(** ** The back end, as the specification describes it                        *)
(* ------------------------------------------------------------------------- *)

Module Backend.

(** Modelled from the spec: the status of a Job (section 3, section 4.5);
    the job store [backend/jobs.py] is not among the sources. *)
Inductive Status : Type := pending | processing | done | error.

(** Modelled from the spec: the Job record of the data model (section 3),
    without [id] and [createdAt], which no stage writes; [backend/jobs.py]
    is not among the sources. *)
Record Job : Type :=
  { status : Status;
    progress : Z;
    message : jsstring;
    resultLocation : option jsstring;
    errorDetail : option jsstring }.





(** Modelled from the spec: the Job a submission creates (section 5: the
    creation call returns as soon as a Job record exists; the example of
    section 8: the job returns [pending]); [backend/main.py] is not among the
    sources. *)
Definition created : Job :=
  {| status := pending; progress := 0; message := [];
     resultLocation := None; errorDetail := None |}.





(** Modelled from the spec: [get] of the Job Store (section 4.4) on a known
    job, read after [t] transitions; once the job has stopped changing the
    last snapshot is the one read; [backend/jobs.py] is not among the
    sources. *)
Definition get (h : list Job) (t : nat) : Job :=
  nth (Nat.min t (List.length h - 1)) h created.

(** Modelled from the spec: the four status values as the status query spells
    them (section 6); [backend/main.py] is not among the sources. *)
Definition statusOf (s : Status) : Page.JobStatus :=
  match s with
  | pending => Page.job_pending
  | processing => Page.job_processing
  | done => Page.job_done
  | error => Page.job_error
  end.

(** Modelled from the spec: the answer to a status query (section 6): the
    Job snapshot, as the polling client receives it; [backend/main.py] is
    not among the sources. *)
Definition statusReply (j : Job) : Reply Page.PollResponse :=
  Response 200
    (JsonValue
       {| Page.pr_status := statusOf (status j);
          Page.pr_progress := Some (progress j);
          Page.pr_message := Some (message j);
          Page.pr_url := resultLocation j;
          Page.pr_error := errorDetail j |}).





(** Modelled from the spec: a caption cue (section 3), with seconds as exact
    rationals; [backend/video.py] is not among the sources. *)
Record CaptionCue : Type :=
  { word : jsstring; startSeconds : Q; endSeconds : Q }.

(** A count as a rational number. *)
Definition ofNat (n : nat) : Q := inject_Z (Z.of_nat n).

(** Modelled from the spec: cue [i] of [N] (section 4.2): it spans
    [i*D/N, (i+1)*D/N), and the end of the last cue is the duration itself;
    [backend/video.py] is not among the sources. *)
Definition cue (N : nat) (D : Q) (i : nat) (w : jsstring) : CaptionCue :=
  {| word := w;
     startSeconds := (ofNat i * D / ofNat N)%Q;
     endSeconds :=
       if Nat.eqb (S i) N then D else (ofNat (S i) * D / ofNat N)%Q |}.

(** Modelled from the spec: the cues of the words from position [i] on
    (section 4.2); [backend/video.py] is not among the sources. *)
Fixpoint cuesFrom (N : nat) (D : Q) (i : nat) (words : list jsstring)
  : list CaptionCue :=
  match words with
  | [] => []
  | w :: rest => cue N D i w :: cuesFrom N D (S i) rest
  end.

(** Modelled from the spec: the Caption Timer (section 4.2): [None] is the
    [InvalidInput] failure of the degenerate case; [backend/video.py] is not
    among the sources. *)
Definition computeCues (words : list jsstring) (D : Q) : option (list CaptionCue) :=
  match words with
  | [] => None
  | _ :: _ => Some (cuesFrom (List.length words) D 0 words)
  end.

(** The cue read at a position past the end of a list of cues. *)
Definition noCue : CaptionCue :=
  {| word := []; startSeconds := 0%Q; endSeconds := 0%Q |}.

Definition helloWorld : list jsstring := [lit "Hello"; lit "world"].

End Backend.

(* ------------------------------------------------------------------------- *)
(** ** The page component: what it renders, the download, the step dots       *)
(* ------------------------------------------------------------------------- *)

Module PageView.
Import Page.

(** Truthiness of a [string | null] cell. *)
Definition shown (cell : option jsstring) : bool :=
  match cell with
  | Some s => Js.truthy s
  | None => false
  end.

(** [{isProcessing && (...)}]: the progress panel is rendered. *)
Definition showsProgress (st : Client) : bool := isProcessing st.

(** [{appState === "error" && errorMsg && (...)}]: the error box, with its
    "Try again" button, is rendered. *)
Definition showsError (st : Client) : bool :=
  match appState st with
  | error => shown (errorMsg st)
  | _ => false
  end.

(** [{appState === "done" && videoUrl && (...)}]: the preview, with the
    download and "New Video" buttons, is rendered. *)
Definition showsVideo (st : Client) : bool :=
  match appState st with
  | done => shown (videoUrl st)
  | _ => false
  end.

(** [{statusMessage || "Processing..."}]: the text of the progress panel. *)
Definition progressText (st : Client) : jsstring :=
  if Js.truthy (statusMessage st) then statusMessage st
  else lit "Processing...".

(* ---- Download ----------------------------------------------------------- *)

(** What [await fetch(videoUrl)] and [await res.blob()] yield: [fetch]
    rejects, or a response arrives (of whatever status) whose body cannot be
    read, or one whose body is read; [objectUrl] is the string
    [URL.createObjectURL] then returns for it. *)
Inductive VideoFetch : Type :=
| FetchRejects
| BlobRejects (status : Z)
| BlobArrives (status : Z) (blob : list N) (objectUrl : jsstring).

Inductive DomEffect : Type :=
| FetchVideo (url : jsstring)
| CreateObjectURL (blob : list N) (objectUrl : jsstring)
| AppendAnchor (href download : jsstring)
| ClickAnchor (href download : jsstring)
| RemoveAnchor (href download : jsstring)
| RevokeObjectURL (objectUrl : jsstring)
| Alert (text : jsstring).

Definition downloadName : jsstring := lit "clipforge-video.mp4".

Definition downloadFailed : jsstring :=
  lit "Download failed. Try right-clicking the video and saving it.".

(** [handleDownload]: it sets no state; the result is what it does. *)
Definition handleDownload (outcome : VideoFetch) (st : Client) : list DomEffect :=
  match videoUrl st with
  | None => []
  | Some url =>
      if negb (Js.truthy url) then []
      else
        FetchVideo url ::
        match outcome with
        | FetchRejects => [Alert downloadFailed]
        | BlobRejects _ => [Alert downloadFailed]
        | BlobArrives _ blob objectUrl =>
            [CreateObjectURL blob objectUrl;
             AppendAnchor objectUrl downloadName;
             ClickAnchor objectUrl downloadName;
             RemoveAnchor objectUrl downloadName;
             RevokeObjectURL objectUrl]
        end
  end.

(** What is left in the document and among the object URLs after a list of
    effects: the anchors appended and not removed, the object URLs created
    and not revoked. *)
Fixpoint leftOver (anchors urls : list jsstring) (effects : list DomEffect)
  : list jsstring * list jsstring :=
  match effects with
  | [] => (anchors, urls)
  | AppendAnchor href _ :: rest => leftOver (href :: anchors) urls rest
  | RemoveAnchor href _ :: rest =>
      leftOver (List.filter (fun a => negb (str_eqb a href)) anchors) urls rest
  | CreateObjectURL _ u :: rest => leftOver anchors (u :: urls) rest
  | RevokeObjectURL u :: rest =>
      leftOver anchors (List.filter (fun a => negb (str_eqb a u)) urls) rest
  | _ :: rest => leftOver anchors urls rest
  end.

(* ---- The step dots ------------------------------------------------------ *)

Record Step : Type := { label : jsstring; threshold : Z }.

Definition STEPS : list Step :=
  [ {| label := lit "Voiceover"; threshold := 30 |};
    {| label := lit "Analysis"; threshold := 45 |};
    {| label := lit "Subtitles"; threshold := 55 |};
    {| label := lit "Rendering"; threshold := 90 |};
    {| label := lit "Done"; threshold := 100 |} ].

(** The steps are distinct objects; they are told apart by their contents. *)
Definition step_eqb (a b : Step) : bool :=
  str_eqb (label a) (label b) && (threshold a =? threshold b).

(** [steps.indexOf(step)]: the first position, or -1. *)
Fixpoint indexOf (steps : list Step) (step : Step) : Z :=
  match steps with
  | [] => -1
  | s :: rest =>
      if step_eqb s step then 0
      else if indexOf rest step <? 0 then -1 else indexOf rest step + 1
  end.

(** [steps[i]]: [undefined] outside the array, in particular at -1. *)
Definition at_ (steps : list Step) (i : Z) : option Step :=
  if i <? 0 then None else nth_error steps (Z.to_nat i).

(** [STEPS[STEPS.indexOf(step) - 1]?.threshold ?? 0] *)
Definition previousThreshold (step : Step) : Z :=
  match at_ STEPS (indexOf STEPS step - 1) with
  | Some s => threshold s
  | None => 0
  end.

Definition stepDone (progress : Z) (step : Step) : bool :=
  threshold step <=? progress.

Definition stepActive (progress : Z) (step : Step) : bool :=
  (progress <? threshold step) && (previousThreshold step <=? progress).

(** The three looks of a dot: [done ? ... : active ? ... : ...]. *)
Inductive Tone : Type := Done | Active | Upcoming.

Definition tone (progress : Z) (step : Step) : Tone :=
  if stepDone progress step then Done
  else if stepActive progress step then Active
  else Upcoming.

(** [ProgressSteps({ progress })]: the look of each dot, in order. *)
Definition ProgressSteps (progress : Z) : list Tone :=
  List.map (tone progress) STEPS.

End PageView.

(* ------------------------------------------------------------------------- *)
(** ** The page as it runs: requests under way and their answers              *)
(* ------------------------------------------------------------------------- *)

Module Async.
Import Page.

(** [pollStatus] from the answer on: what follows [await fetch(...)].  No
    test of [pollRef] or of the job stands between the answer and the
    setters. *)
Definition answered (reply : Reply PollResponse) : Handler :=
  match reply with
  | NetworkError _ => skip
  | Response code body =>
      if negb (ok code) then skip
      else
        match body with
        | JsonThrows _ => skip
        | JsonNull => skip
        | JsonValue data =>
            setProgress (orElse (pr_progress data) 0) ;;
            (if Js.truthy (orElse (pr_message data) [])
             then setStatusMessage (orElse (pr_message data) [])
             else skip) ;;
            match pr_status data with
            | job_done =>
                stopPolling ;; setAppState done ;; setVideoUrl (pr_url data)
            | job_error =>
                stopPolling ;; setAppState error ;;
                setErrorMsg
                  (Some (orElse (pr_error data) (lit "An unknown error occurred.")))
            | _ => skip
            end
        end
  end.

(** The component together with what runs besides it: the number of
    submissions not yet answered, the jobs of the status requests not yet
    answered, and the jobs of the intervals that are running. *)
Record World : Type :=
  { client : Client; posts : nat; polls : list jsstring;
    intervals : list jsstring }.

Definition start : World :=
  {| client := initial; posts := 0; polls := []; intervals := [] |}.

Inductive Event : Type :=
| UserTypes (text : jsstring)
| UserClicksGenerate
| SubmissionAnswered (reply : Reply GenerateResponse)
| UserResets
| IntervalFires (jobId : jsstring)
| PollAnswered (jobId : jsstring) (reply : Reply PollResponse).

(** One occurrence of [jobId] leaves a list. *)
Fixpoint take (jobId : jsstring) (l : list jsstring) : option (list jsstring) :=
  match l with
  | [] => None
  | j :: rest =>
      if str_eqb j jobId then Some rest
      else match take jobId rest with
           | Some rest' => Some (j :: rest')
           | None => None
           end
  end.

(** [clearInterval]: the interval stops running. *)
Definition without (jobId : jsstring) (running : list jsstring) : list jsstring :=
  match take jobId running with
  | Some rest => rest
  | None => running
  end.

(** The intervals running after a list of effects: [setInterval] starts
    one, whether or not another runs, and [clearInterval] stops the one it
    is given. *)
Fixpoint timers (effects : list Effect) (running : list jsstring) : list jsstring :=
  match effects with
  | [] => running
  | SetInterval j :: rest => timers rest (running ++ [j])
  | ClearInterval j :: rest => timers rest (without j running)
  | _ :: rest => timers rest running
  end.

(** A handler runs on the component, and the intervals follow its effects;
    [n] and [under_way] are the requests under way afterwards. *)
Definition handle (h : Handler) (n : nat) (under_way : list jsstring) (w : World)
  : World * list Effect :=
  ({| client := fst (h (client w)); posts := n; polls := under_way;
      intervals := timers (snd (h (client w))) (intervals w) |},
   snd (h (client w))).

Definition runs (jobId : jsstring) (w : World) : bool :=
  existsb (fun j => str_eqb j jobId) (intervals w).

(** What the page offers and what reaches it.  The text area is enabled
    while no job is processed.  A click on Generate runs [handleGenerate],
    whose guard returns at once.  A submission is answered if one is under
    way, in whatever state the component is by then.  The reset buttons are
    those of the error box and of the preview.  Every interval that runs
    fires, whether or not [pollRef] holds it, and sends a request; the
    request is answered later, in whatever state the component is by then
    and whether or not the interval still runs. *)
Definition fire (e : Event) (w : World) : option (World * list Effect) :=
  match e with
  | UserTypes text =>
      if isProcessing (client w) then None
      else Some (handle (setScript text) (posts w) (polls w) w)
  | UserClicksGenerate =>
      if blocked (client w) then Some (w, [])
      else Some (handle submit (S (posts w)) (polls w) w)
  | SubmissionAnswered reply =>
      match posts w with
      | S n => Some (handle (settle reply) n (polls w) w)
      | O => None
      end
  | UserResets =>
      if PageView.showsError (client w) || PageView.showsVideo (client w)
      then Some (handle handleReset (posts w) (polls w) w)
      else None
  | IntervalFires jobId =>
      if runs jobId w
      then Some (handle (emit (FetchStatus jobId)) (posts w) (polls w ++ [jobId]) w)
      else None
  | PollAnswered jobId reply =>
      match take jobId (polls w) with
      | Some rest => Some (handle (answered reply) (posts w) rest w)
      | None => None
      end
  end.

Inductive reachable : World -> Prop :=
| reachable_start : reachable start
| reachable_step (w : World) (e : Event) (w' : World) (effects : list Effect) :
    reachable w -> fire e w = Some (w', effects) -> reachable w'.

(** The world after a list of events, [None] if one of them cannot occur. *)
Fixpoint run (events : list Event) (w : World) : option World :=
  match events with
  | [] => Some w
  | e :: rest =>
      match fire e w with
      | Some (w', _) => run rest w'
      | None => None
      end
  end.

(** The states the component shows after each of a list of answers to
    status requests, handled in the order of the list. *)
Fixpoint handled (replies : list (Reply PollResponse)) (st : Client) : list Client :=
  match replies with
  | [] => []
  | reply :: rest =>
      fst (answered reply st) :: handled rest (fst (answered reply st))
  end.

(** An event that is the answer to a request. *)
Definition isAnswer (e : Event) : bool :=
  match e with
  | SubmissionAnswered _ | PollAnswered _ _ => true
  | _ => false
  end.

(* ---- Properties as the specification words them ------------------------- *)

(** Exactly one of result location and error detail is populated, and only
    in the corresponding terminal state. *)
Definition cellsFollowState : Prop :=
  forall w, reachable w ->
    resultOnlyWhenDone (client w) /\ errorOnlyWhenError (client w)
    /\ resultWhenDone (client w) /\ errorWhenError (client w)
    /\ notBoth (client w).

(** Nothing but a reset, which returns to [idle], moves the state out of
    [done] or [error]. *)
Definition terminalIsFinal : Prop :=
  forall w e w' effects,
    reachable w -> terminalView (client w) -> fire e w = Some (w', effects) ->
    appState (client w') = appState (client w)
    \/ (e = UserResets /\ appState (client w') = idle).

(** What holds of the two cells in every state the page reaches. *)
Definition settled (st : Client) : Prop :=
  errorWhenError st
  /\ (appState st = idle \/ appState st = pending ->
      videoUrl st = None /\ errorMsg st = None).

(* ---- Sample runs -------------------------------------------------------- *)

Definition videoOne : jsstring := lit "/videos/j1.mp4".

(** Job j1 is submitted; the interval fires twice before any answer; the
    first answer says [done]; the second request is still under way. *)
Definition oneAnswerLate : list Event :=
  [UserTypes (lit "hi"); UserClicksGenerate; SubmissionAnswered (accepted "j1");
   IntervalFires (lit "j1"); IntervalFires (lit "j1");
   PollAnswered (lit "j1") (reported job_done 100 (Some videoOne) None)].

(** The user clicks Generate again, the late answer for j1 arrives, then the
    new submission is accepted as j2. *)
Definition lateThenAccepted : list Event :=
  oneAnswerLate
    ++ [UserClicksGenerate;
        PollAnswered (lit "j1") (reported job_done 100 (Some videoOne) None);
        SubmissionAnswered (accepted "j2")].

(** The user clicks Generate again, the new submission fails, then the late
    answer for j1 arrives. *)
Definition failedThenLate : list Event :=
  oneAnswerLate
    ++ [UserClicksGenerate; SubmissionAnswered (NetworkError (lit "fetch failed"));
        PollAnswered (lit "j1") (reported job_done 100 (Some videoOne) None)].

Definition processingWithVideo : World :=
  {| client :=
       {| script := lit "hi"; appState := processing; progress := 100;
          statusMessage := lit "Generating voiceover...";
          videoUrl := Some videoOne; errorMsg := None;
          pollRef := Some (lit "j2") |};
     posts := 0; polls := []; intervals := [lit "j2"] |}.

Definition failedResubmission : World :=
  {| client :=
       {| script := lit "hi"; appState := error; progress := 0;
          statusMessage := lit "Submitting job..."; videoUrl := None;
          errorMsg := Some (lit "fetch failed"); pollRef := None |};
     posts := 0; polls := [lit "j1"]; intervals := [] |}.

Definition doneWithBoth : World :=
  {| client :=
       {| script := lit "hi"; appState := done; progress := 100;
          statusMessage := lit "Submitting job...";
          videoUrl := Some videoOne; errorMsg := Some (lit "fetch failed");
          pollRef := None |};
     posts := 0; polls := []; intervals := [] |}.

Definition finished : World :=
  {| client := doneWithUrl; posts := 0; polls := []; intervals := [] |}.

(** Job j1 is being polled and one request is under way. *)
Definition pollingOne : World :=
  {| client := polling; posts := 0; polls := [lit "j1"];
     intervals := [lit "j1"] |}.

(** A late answer for j1 arrives while the next submission is [pending],
    the component shows [done], and the user clicks Generate once more: two
    submissions are under way.  Both are accepted, as j2 and j3, and each
    starts an interval.  Then j2 is polled and reported [done]. *)
Definition twoAccepted : list Event :=
  oneAnswerLate
    ++ [UserClicksGenerate;
        PollAnswered (lit "j1") (reported job_done 100 (Some videoOne) None);
        UserClicksGenerate;
        SubmissionAnswered (accepted "j2"); SubmissionAnswered (accepted "j3");
        IntervalFires (lit "j2");
        PollAnswered (lit "j2") (reported job_done 100 (Some videoOne) None)].

(** The late answer for j1 has arrived while the next submission is under
    way. *)
Definition doneWhileSubmitting : World :=
  {| client :=
       {| script := lit "hi"; appState := done; progress := 100;
          statusMessage := lit "Submitting job...";
          videoUrl := Some videoOne; errorMsg := None; pollRef := None |};
     posts := 1; polls := []; intervals := [] |}.

(** The interval of j2 is running and [pollRef] is empty. *)
Definition leaked : World :=
  {| client := doneWithUrl; posts := 0; polls := [];
     intervals := [lit "j2"] |}.

(** After Generate is clicked on [finished]. *)
Definition clickedAgain : World :=
  {| client := resubmitted; posts := 1; polls := []; intervals := [] |}.

End Async.

(* ------------------------------------------------------------------------- *)
(** ** The page reading the status of one job                                 *)
(* ------------------------------------------------------------------------- *)

Module Reads.
Import Backend.

(** The answers to the status reads made at the given times of a job's
    history. *)
Definition answersAt (h : list Job) (times : list nat) : list (Reply Page.PollResponse) :=
  List.map (fun t => statusReply (get h t)) times.

(** The progress the page shows after each answer, the answers being
    handled in the order [arrival]. *)
Definition shown (h : list Job) (arrival : list nat) (st : Page.Client) : list Z :=
  List.map Page.progress (Async.handled (answersAt h arrival) st).


End Reads.

(* ------------------------------------------------------------------------- *)
(** ** The component's effects over time                                      *)
(* ------------------------------------------------------------------------- *)

Module Timer.
Import Page.

(** The state after a list of events together with every effect performed,
    in order; [None] if one of the events cannot occur. *)
Fixpoint runTrace (events : list Event) (st : Client)
  : option (Client * list Effect) :=
  match events with
  | [] => Some (st, [])
  | e :: rest =>
      match fire e st with
      | Some (st1, effects) =>
          match runTrace rest st1 with
          | Some (st2, later) => Some (st2, effects ++ later)
          | None => None
          end
      | None => None
      end
  end.

(** A discipline on effects, with [live] the job of the interval that is
    running: an interval is set only when none runs; the interval cleared is
    the one that runs; a status request is for the job of the running
    interval; a submission is sent only when no interval runs.  The result is
    the interval running at the end, or [None] if the discipline is broken. *)
Fixpoint timer (live : option jsstring) (effects : list Effect)
  : option (option jsstring) :=
  match effects with
  | [] => Some live
  | SetInterval j :: rest =>
      match live with
      | None => timer (Some j) rest
      | Some _ => None
      end
  | ClearInterval j :: rest =>
      match live with
      | Some k => if str_eqb k j then timer None rest else None
      | None => None
      end
  | FetchStatus j :: rest =>
      match live with
      | Some k => if str_eqb k j then timer live rest else None
      | None => None
      end
  | FetchGenerate _ :: rest =>
      match live with
      | None => timer live rest
      | Some _ => None
      end
  end.

(** The submissions among a list of effects. *)
Fixpoint submissions (effects : list Effect) : list jsstring :=
  match effects with
  | [] => []
  | FetchGenerate text :: rest => text :: submissions rest
  | _ :: rest => submissions rest
  end.

End Timer.

(* ------------------------------------------------------------------------- *)
(** ** The page and the generate route together                               *)
(* ------------------------------------------------------------------------- *)

Module Wiring.
Import Json.

(** [JSON.stringify({ text: script })], as the route's [request.json()]
    reads it back. *)
Definition generateRequestBody (text : jsstring) : json :=
  JObj [(lit "text", JStr text)].

(** The bodies the route receives for the submissions of the page. *)
Definition routeRequests (env : option jsstring) (up : Upstream)
  (effects : list Page.Effect) : list UpstreamRequest :=
  List.flat_map
    (fun text => fst (GenerateRoute.POST env (Some (generateRequestBody text)) up))
    (Timer.submissions effects).

End Wiring.

(* ------------------------------------------------------------------------- *)
(** ** Shapes of the bodies the status route meets                            *)
(* ------------------------------------------------------------------------- *)

Module Shapes.
Import Json.

(** The bodies on which the rewriting of the video URL throws: [null], whose
    [url] cannot be read, and an object whose [url] is truthy and not a
    string, so that it has no [startsWith]. *)
Definition urlThrows (data : json) : bool :=
  match data with
  | JNull => true
  | JObj fields =>
      match lookup (lit "url") fields with
      | Some (JStr _) => false
      | Some v => truthy v
      | None => false
      end
  | _ => false
  end.

(** A body whose [url] is the number 1. *)
Definition numericUrl : json := JObj [(lit "url", JNum 1)].

(** The [url] of a body when the status route takes it for a relative one:
    a non-empty string that does not start with [http]. *)
Definition relativeUrl (data : json) : option jsstring :=
  match getProp data (lit "url") with
  | Value (JStr u) =>
      if Js.truthy u && negb (startsWith u (lit "http")) then Some u else None
  | _ => None
  end.

End Shapes.

(* ========================================================================= *)
(** * Properties                                                              *)
(* ========================================================================= *)

Module JsFacts.

Lemma str_eqb_eq (a b : jsstring) : str_eqb a b = true <-> a = b.
Proof.
  revert b; induction a as [|x a IH]; intros [|y b]; simpl; split;
    try congruence; try reflexivity.
  - intros H. apply andb_true_iff in H as [Hxy Hab].
    apply N.eqb_eq in Hxy. apply IH in Hab. congruence.
  - intros H. injection H as -> ->. apply andb_true_iff. split.
    + apply N.eqb_refl.
    + now apply IH.
Qed.

Lemma str_eqb_refl (a : jsstring) : str_eqb a a = true.
Proof. now apply str_eqb_eq. Qed.

Lemma trimStart_whitespaceOnly (s : jsstring) :
  whitespaceOnly s -> trimStart s = [].
Proof.
  induction 1 as [|c r Hc _ IH]; simpl; [reflexivity|].
  now rewrite Hc.
Qed.

(** A string of white space only trims to the empty string. *)
Lemma trim_whitespaceOnly (s : jsstring) : whitespaceOnly s -> trim s = [].
Proof.
  intros H. unfold trim, trimEnd. now rewrite (trimStart_whitespaceOnly s H).
Qed.

Lemma startsWith_app (p s : jsstring) : startsWith (p ++ s) p = true.
Proof.
  induction p as [|c p IH]; simpl; [reflexivity|].
  unfold code_eqb. now rewrite N.eqb_refl.
Qed.

End JsFacts.

Module PageFacts.
Import Page.

(** The guard of [handleGenerate] and the predicate of the button agree. *)
Lemma guard_canGenerate (st : Client) : blocked st = negb (canGenerate st).
Proof.
  unfold blocked, canGenerate, isOverLimit.
  destruct (trim (script st)) as [|c r]; simpl; [reflexivity|].
  destruct (isProcessing st); simpl; [reflexivity|].
  now rewrite negb_involutive.
Qed.

Lemma handleGenerate_blocked (reply : Reply GenerateResponse) (st : Client) :
  canGenerate st = false -> handleGenerate reply st = (st, []).
Proof.
  intros H. unfold handleGenerate. rewrite guard_canGenerate, H. reflexivity.
Qed.

Lemma click_blocked (st : Client) :
  canGenerate st = false -> fire ClickGenerate st = Some (st, []).
Proof.
  intros H. cbn [fire]. rewrite guard_canGenerate, H. reflexivity.
Qed.

(** C1. A script longer than [MAX_CHARS] is never submitted: whatever the
    network would answer, [handleGenerate] returns at its guard with the
    state untouched and no effect performed - in particular no request to
    [/api/generate], so no job is created; the click is an event that
    changes nothing; and [canGenerate] is false. *)
Theorem over_limit_never_submitted (reply : Reply GenerateResponse) (st : Client) :
  MAX_CHARS < charCount st ->
  handleGenerate reply st = (st, [])
  /\ (forall text, ~ In (FetchGenerate text) (snd (handleGenerate reply st)))
  /\ fire ClickGenerate st = Some (st, [])
  /\ canGenerate st = false.
Proof.
  intros Hlen.
  assert (Hcan : canGenerate st = false).
  { unfold canGenerate, isOverLimit.
    apply Z.ltb_lt in Hlen. rewrite Hlen. simpl. apply andb_false_r. }
  rewrite (handleGenerate_blocked reply st Hcan), (click_blocked st Hcan).
  repeat split; auto.
Qed.

(** C2. An empty or white-space-only script is rejected at the guard of
    [handleGenerate]: no request is made and no state cell changes; the
    click is an event that changes nothing; and [canGenerate] is false. *)
Theorem blank_script_never_submitted (reply : Reply GenerateResponse) (st : Client) :
  script st = [] \/ whitespaceOnly (script st) ->
  handleGenerate reply st = (st, [])
  /\ snd (handleGenerate reply st) = []
  /\ fire ClickGenerate st = Some (st, [])
  /\ canGenerate st = false.
Proof.
  intros Hblank.
  assert (Htrim : trim (script st) = []).
  { destruct Hblank as [-> | Hws]; [reflexivity|].
    now apply JsFacts.trim_whitespaceOnly. }
  assert (Hcan : canGenerate st = false).
  { unfold canGenerate. now rewrite Htrim. }
  rewrite (handleGenerate_blocked reply st Hcan), (click_blocked st Hcan).
  repeat split; auto.
Qed.

(** A poll that reads nothing leaves every cell as it was. *)
Lemma pollStatus_nothing_delivered (jobId : jsstring) (reply : Reply PollResponse)
  (st : Client) :
  delivered reply = None -> pollStatus jobId reply st = (st, [FetchStatus jobId]).
Proof.
  destruct reply as [msg | code [msg | | data]]; simpl; intros H;
    unfold pollStatus; try reflexivity.
  - destruct (ok code); reflexivity.
  - destruct (ok code); reflexivity.
  - destruct (ok code); [discriminate | reflexivity].
Qed.

Lemma failedFetch_delivers_nothing (reply : Reply PollResponse) :
  failedFetch reply = true -> delivered reply = None.
Proof.
  destruct reply as [msg | code [msg | | data]]; simpl; try reflexivity.
  destruct (ok code); [discriminate | reflexivity].
Qed.

(** The cells after a poll that read [data]. *)
Lemma pollStatus_delivered (jobId : jsstring) (reply : Reply PollResponse)
  (data : PollResponse) (st : Client) :
  delivered reply = Some data ->
  let st' := fst (pollStatus jobId reply st) in
  script st' = script st
  /\ progress st' = orElse (pr_progress data) 0
  /\ match pr_status data with
     | job_done =>
         appState st' = done /\ videoUrl st' = pr_url data
         /\ errorMsg st' = errorMsg st /\ pollRef st' = None
     | job_error =>
         appState st' = error /\ videoUrl st' = videoUrl st
         /\ errorMsg st' =
              Some (orElse (pr_error data) (lit "An unknown error occurred."))
         /\ pollRef st' = None
     | _ =>
         appState st' = appState st /\ videoUrl st' = videoUrl st
         /\ errorMsg st' = errorMsg st /\ pollRef st' = pollRef st
     end.
Proof.
  destruct reply as [msg | code [msg | | data']]; simpl; try discriminate.
  destruct (ok code) eqn:Hok; [|discriminate].
  intros [= ->]. unfold pollStatus, andThen. simpl.
  destruct (Js.truthy (orElse (pr_message data) [])); simpl;
    destruct (pr_status data); simpl; unfold stopPolling; simpl;
    destruct (pollRef st) eqn:Href; simpl; rewrite ?Href; repeat split;
    reflexivity.
Qed.

(** C9. A failed status poll never becomes a job error.  When the fetch of a
    poll throws or its response is not ok, every cell of the state
    ([appState], [progress], [statusMessage], [videoUrl], [errorMsg] and the
    interval) is left as it was, the only effect is the request itself, and
    the interval fires again as before.  A poll moves the state to [error]
    only by reading an ok response whose body parses and says [error]. *)
Theorem failed_poll_is_not_a_job_error (jobId : jsstring)
  (reply : Reply PollResponse) (st : Client) :
  (failedFetch reply = true ->
     pollStatus jobId reply st = (st, [FetchStatus jobId])
     /\ forall next, fire (Tick next) (fst (pollStatus jobId reply st))
                     = fire (Tick next) st)
  /\ (appState (fst (pollStatus jobId reply st)) = error ->
        appState st = error
        \/ exists data, delivered reply = Some data /\ pr_status data = job_error).
Proof.
  split.
  - intros Hfail.
    rewrite (pollStatus_nothing_delivered jobId reply st
               (failedFetch_delivers_nothing reply Hfail)).
    split; reflexivity.
  - intros Herr. destruct (delivered reply) as [data|] eqn:Hd.
    + pose proof (pollStatus_delivered jobId reply data st Hd) as (_ & _ & H).
      destruct (pr_status data) eqn:Hs.
      * left. destruct H as (H & _). congruence.
      * left. destruct H as (H & _). congruence.
      * destruct H as (H & _). congruence.
      * right. exists data. split; reflexivity || assumption.
    + rewrite (pollStatus_nothing_delivered jobId reply st Hd) in Herr.
      left. exact Herr.
Qed.

(* ---- What an event does to the cells the invariants speak of ------------- *)

Lemma handleReset_cells (st : Client) :
  let st' := fst (handleReset st) in
  appState st' = idle /\ videoUrl st' = None /\ errorMsg st' = None
  /\ pollRef st' = None.
Proof.
  unfold handleReset, andThen, stopPolling.
  destruct (pollRef st) eqn:Href; simpl; rewrite ?Href; repeat split; reflexivity.
Qed.

Lemma submit_cells (st : Client) :
  let st' := fst (submit st) in
  appState st' = pending /\ videoUrl st' = None /\ errorMsg st' = None
  /\ pollRef st' = None.
Proof.
  unfold submit, andThen, stopPolling.
  destruct (pollRef st) eqn:Href; simpl; rewrite ?Href; repeat split; reflexivity.
Qed.

Lemma settle_cells (reply : Reply GenerateResponse) (st : Client) :
  let st' := fst (settle reply st) in
  videoUrl st' = videoUrl st
  /\ ((appState st' = processing /\ errorMsg st' = errorMsg st
       /\ pollRef st' <> None)
      \/ (appState st' = error /\ errorMsg st' <> None
          /\ pollRef st' = pollRef st)).
Proof.
  unfold settle.
  destruct reply as [msg | code [msg | | data]]; try destruct (ok code);
    simpl; split; try reflexivity;
    solve [ left; repeat split; (reflexivity || discriminate)
          | right; repeat split; (reflexivity || discriminate) ].
Qed.

(** A run of the handler is the click followed by the answer. *)
Lemma handleGenerate_run (reply : Reply GenerateResponse) (st : Client) :
  canGenerate st = true ->
  run [ClickGenerate; Answer reply] st = Some (fst (handleGenerate reply st)).
Proof.
  intros Hcan. unfold handleGenerate. cbn [run fire].
  rewrite guard_canGenerate, Hcan. cbn [negb].
  destruct (submit_cells st) as (Hpending & _).
  destruct (submit st) as [st1 effects] eqn:Hsubmit. cbn [fst] in Hpending.
  rewrite Hpending. destruct (settle reply st1) as [st2 effects2] eqn:Hsettle.
  unfold andThen. rewrite Hsubmit. cbn [fst]. now rewrite Hsettle.
Qed.

Lemma some_pair_fst {A B : Type} (p : A * B) (a : A) (b : B) :
  Some p = Some (a, b) -> fst p = a.
Proof. intros [= ->]. reflexivity. Qed.

(** The ways in which one event changes the state. *)
Lemma step_cases (st : Client) (e : Event) (st' : Client) :
  step st e st' ->
  (appState st' = appState st /\ videoUrl st' = videoUrl st
   /\ errorMsg st' = errorMsg st /\ pollRef st' = pollRef st)
  \/ (e = ClickReset /\ appState st' = idle /\ videoUrl st' = None
      /\ errorMsg st' = None /\ pollRef st' = None)
  \/ (e = ClickGenerate /\ canGenerate st = true /\ appState st' = pending
      /\ videoUrl st' = None /\ errorMsg st' = None /\ pollRef st' = None)
  \/ ((exists reply, e = Answer reply) /\ appState st = pending
      /\ videoUrl st' = videoUrl st
      /\ ((appState st' = processing /\ errorMsg st' = errorMsg st
           /\ pollRef st' <> None)
          \/ (appState st' = error /\ errorMsg st' <> None
              /\ pollRef st' = pollRef st)))
  \/ (exists reply data,
        e = Tick reply /\ pollRef st <> None /\ delivered reply = Some data
        /\ pollRef st' = None
        /\ ((pr_status data = job_done /\ appState st' = done
             /\ videoUrl st' = pr_url data /\ errorMsg st' = errorMsg st)
            \/ (pr_status data = job_error /\ appState st' = error
                /\ videoUrl st' = videoUrl st /\ errorMsg st' <> None))).
Proof.
  intros [effects Hfire]. destruct e as [text | | reply | | reply];
    simpl in Hfire.
  - apply some_pair_fst in Hfire. subst st'. left. repeat split; reflexivity.
  - apply some_pair_fst in Hfire; rename Hfire into Hst.
    rewrite guard_canGenerate in Hst.
    destruct (canGenerate st) eqn:Hcan; simpl in Hst.
    + right; right; left. split; [reflexivity|]. split; [reflexivity|].
      rewrite <- Hst. exact (submit_cells st).
    + subst st'. left. repeat split; reflexivity.
  - destruct (appState st) eqn:Happ; try discriminate.
    apply some_pair_fst in Hfire; rename Hfire into Hst.
    right; right; right; left. split; [now exists reply|]. split; [reflexivity|].
    rewrite <- Hst. exact (settle_cells reply st).
  - apply some_pair_fst in Hfire; rename Hfire into Hst.
    right; left. split; [reflexivity|].
    rewrite <- Hst. exact (handleReset_cells st).
  - destruct (pollRef st) as [jobId|] eqn:Href; [|discriminate].
    apply some_pair_fst in Hfire; rename Hfire into Hst.
    destruct (delivered reply) as [data|] eqn:Hd.
    + pose proof (pollStatus_delivered jobId reply data st Hd) as (_ & _ & H).
      rewrite Hst in H.
      destruct (pr_status data) eqn:Hs.
      * left. destruct H as (? & ? & ? & ?). repeat split; congruence.
      * left. destruct H as (? & ? & ? & ?). repeat split; congruence.
      * right; right; right; right. exists reply, data.
        destruct H as (? & ? & ? & ?).
        repeat split; try congruence. left. repeat split; congruence.
      * right; right; right; right. exists reply, data.
        destruct H as (? & ? & He & ?).
        repeat split; try congruence. right. repeat split; congruence.
    + rewrite (pollStatus_nothing_delivered jobId reply st Hd) in Hst.
      simpl in Hst. subst st'. left. repeat split; congruence.
Qed.

(* ---- The invariant of the component ------------------------------------- *)

Lemma invariant_initial : invariant initial.
Proof.
  unfold invariant, resultOnlyWhenDone, errorOnlyWhenError, errorWhenError,
    pollingOnlyWhenProcessing; simpl.
  repeat split; congruence.
Qed.

Lemma nothing_unless (A : Type) (x : option A) (P : Prop) :
  (x <> None -> P) -> ~ P -> x = None.
Proof. intros H HP. destruct x; [|reflexivity]. exfalso. apply HP, H. discriminate. Qed.

Lemma invariant_step (st : Client) (e : Event) (st' : Client) :
  invariant st -> step st e st' -> invariant st'.
Proof.
  unfold invariant, resultOnlyWhenDone, errorOnlyWhenError, errorWhenError,
    pollingOnlyWhenProcessing.
  intros (Hv & He & Hee & Hp) Hstep.
  destruct (step_cases st e st' Hstep)
    as [(Ha & Hb & Hc & Hd)
       | [(_ & Ha & Hb & Hc & Hd)
         | [(_ & _ & Ha & Hb & Hc & Hd)
           | [(_ & Hpending & Hb & [(Ha & Hc & Hd) | (Ha & Hc & Hd)])
             | (reply & data & _ & Href & _ & Hd
                & [(_ & Ha & Hb & Hc) | (_ & Ha & Hb & Hc)])]]]].
  - rewrite Ha, Hb, Hc, Hd. auto.
  - rewrite Ha, Hb, Hc, Hd. repeat split; congruence.
  - rewrite Ha, Hb, Hc, Hd. repeat split; congruence.
  - assert (videoUrl st = None) by (apply (nothing_unless _ _ _ Hv); congruence).
    assert (errorMsg st = None) by (apply (nothing_unless _ _ _ He); congruence).
    rewrite Ha, Hb, Hc. repeat split; congruence.
  - assert (videoUrl st = None) by (apply (nothing_unless _ _ _ Hv); congruence).
    assert (pollRef st = None) by (apply (nothing_unless _ _ _ Hp); congruence).
    rewrite Ha, Hb, Hd. repeat split; congruence.
  - specialize (Hp Href).
    assert (errorMsg st = None) by (apply (nothing_unless _ _ _ He); congruence).
    rewrite Ha, Hc, Hd. repeat split; congruence.
  - specialize (Hp Href).
    assert (videoUrl st = None) by (apply (nothing_unless _ _ _ Hv); congruence).
    rewrite Ha, Hb, Hd. repeat split; congruence.
Qed.

Lemma invariant_reachable (allowed : Event -> Prop) (st : Client) :
  reachableVia allowed st -> invariant st.
Proof.
  induction 1 as [|st e st' _ IH _ Hstep].
  - exact invariant_initial.
  - exact (invariant_step st e st' IH Hstep).
Qed.

Lemma run_reachable (allowed : Event -> Prop) (events : list Event) :
  Forall allowed events ->
  forall st st', reachableVia allowed st -> run events st = Some st' ->
  reachableVia allowed st'.
Proof.
  induction 1 as [|e rest He _ IH]; simpl; intros st st' Hst Hrun.
  - now injection Hrun as <-.
  - destruct (fire e st) as [[st1 effects]|] eqn:Hfire; [|discriminate].
    apply (IH st1 st'); [|exact Hrun].
    apply (via_step allowed st e st1 Hst He).
    exact (step_fire st e st1 effects Hfire).
Qed.

Lemma run_from_initial (events : list Event) (st : Client) :
  run events initial = Some st -> reachable st.
Proof.
  intros Hrun. apply (run_reachable anyEvent events) with (st := initial).
  - apply Forall_forall. intros; exact I.
  - apply via_initial.
  - exact Hrun.
Qed.

(* ---- Instances of C1, C2 and C9 ----------------------------------------- *)

Lemma over_limit_never_submitted_witness :
  MAX_CHARS < charCount overLong
  /\ (handleGenerate (accepted "j1") overLong = (overLong, [])
      /\ (forall text,
            ~ In (FetchGenerate text) (snd (handleGenerate (accepted "j1") overLong)))
      /\ fire ClickGenerate overLong = Some (overLong, [])
      /\ canGenerate overLong = false).
Proof.
  split; [reflexivity|].
  apply (over_limit_never_submitted (accepted "j1") overLong). reflexivity.
Defined.

Lemma blank_script_never_submitted_witness :
  whitespaceOnly (script blank)
  /\ (handleGenerate (accepted "j1") blank = (blank, [])
      /\ snd (handleGenerate (accepted "j1") blank) = []
      /\ fire ClickGenerate blank = Some (blank, [])
      /\ canGenerate blank = false).
Proof.
  assert (H : whitespaceOnly (script blank)).
  { unfold whitespaceOnly; simpl. repeat constructor. }
  split; [exact H|].
  apply (blank_script_never_submitted (accepted "j1") blank). right. exact H.
Defined.

Lemma failed_poll_is_not_a_job_error_witness :
  failedFetch (Response 404 (JsonThrows [])) = true
  /\ pollStatus (lit "j1") (Response 404 (JsonThrows [])) polling
       = (polling, [FetchStatus (lit "j1")])
  /\ appState (fst (pollStatus (lit "j1") (reported job_error 30 None None) polling))
       = error
  /\ (appState polling = error
      \/ exists data,
           delivered (reported job_error 30 None None) = Some data
           /\ pr_status data = job_error).
Proof.
  split; [reflexivity|].
  split.
  - apply (proj1 (failed_poll_is_not_a_job_error (lit "j1")
                    (Response 404 (JsonThrows [])) polling)).
    reflexivity.
  - split; [reflexivity|].
    apply (proj2 (failed_poll_is_not_a_job_error (lit "j1")
                    (reported job_error 30 None None) polling)).
    reflexivity.
Defined.

End PageFacts.

Module AsyncFacts.
Import Page Async.

(** A poll is its request followed by the handling of the answer. *)
Lemma pollStatus_answered (jobId : jsstring) (reply : Reply PollResponse) (st : Client) :
  pollStatus jobId reply st
  = (fst (answered reply st), FetchStatus jobId :: snd (answered reply st)).
Proof. reflexivity. Qed.

Lemma answered_nothing_delivered (reply : Reply PollResponse) (st : Client) :
  delivered reply = None -> fst (answered reply st) = st.
Proof.
  intros Hd.
  pose proof (PageFacts.pollStatus_nothing_delivered [] reply st Hd) as H.
  rewrite pollStatus_answered in H. now injection H.
Qed.

Lemma run_stays_reachable (events : list Event) :
  forall w w', reachable w -> run events w = Some w' -> reachable w'.
Proof.
  induction events as [|e rest IH]; simpl; intros w w' Hw Hrun.
  - now injection Hrun as <-.
  - destruct (fire e w) as [[w1 effects]|] eqn:Hfire; [|discriminate].
    apply (IH w1 w'); [|exact Hrun].
    exact (reachable_step w e w1 effects Hw Hfire).
Qed.

Lemma run_from_start (events : list Event) (w : World) :
  run events start = Some w -> reachable w.
Proof. apply run_stays_reachable. exact reachable_start. Qed.

(* ---- What the page keeps, late answers included -------------------------- *)

Lemma settled_start : settled (client start).
Proof.
  unfold settled, errorWhenError; simpl. split; [discriminate|].
  intros _. split; reflexivity.
Qed.

Lemma handle_client {w' : World} {effects : list Effect} (h : Handler) (n : nat)
  (l : list jsstring) (w : World) :
  Some (handle h n l w) = Some (w', effects) -> client w' = fst (h (client w)).
Proof. unfold handle. intros [= <- _]. reflexivity. Qed.

Lemma handle_intervals {w' : World} {effects : list Effect} (h : Handler) (n : nat)
  (l : list jsstring) (w : World) :
  Some (handle h n l w) = Some (w', effects) ->
  intervals w' = timers (snd (h (client w))) (intervals w).
Proof. unfold handle. intros [= <- _]. reflexivity. Qed.

Lemma settled_step (w : World) (e : Event) (w' : World) (effects : list Effect) :
  settled (client w) -> fire e w = Some (w', effects) -> settled (client w').
Proof.
  unfold settled, errorWhenError. intros [Herr Hquiet] Hfire.
  destruct e as [text | | reply | | jobId | jobId reply]; cbn [fire] in Hfire.
  - destruct (isProcessing (client w)); [discriminate|].
    apply handle_client in Hfire. rewrite Hfire. simpl. split; assumption.
  - destruct (blocked (client w)).
    + injection Hfire as <- _. split; assumption.
    + apply handle_client in Hfire. rewrite Hfire.
      destruct (PageFacts.submit_cells (client w)) as (Ha & Hv & He & _).
      rewrite Ha, Hv, He. split; [discriminate | auto].
  - destruct (posts w) as [|n]; [discriminate|].
    apply handle_client in Hfire. rewrite Hfire.
    destruct (PageFacts.settle_cells reply (client w))
      as (Hv & [(Ha & He & _) | (Ha & He & _)]); rewrite Ha.
    + split; [discriminate|]. intros [H | H]; discriminate.
    + split; [intros _; exact He|]. intros [H | H]; discriminate.
  - destruct (PageView.showsError (client w) || PageView.showsVideo (client w));
      [|discriminate].
    apply handle_client in Hfire. rewrite Hfire.
    destruct (PageFacts.handleReset_cells (client w)) as (Ha & Hv & He & _).
    rewrite Ha, Hv, He. split; [discriminate | auto].
  - destruct (runs jobId w); [|discriminate].
    apply handle_client in Hfire. rewrite Hfire. split; assumption.
  - destruct (take jobId (polls w)); [|discriminate].
    apply handle_client in Hfire. rewrite Hfire.
    destruct (delivered reply) as [data|] eqn:Hd.
    + pose proof (PageFacts.pollStatus_delivered jobId reply data (client w) Hd)
        as (_ & _ & H).
      rewrite pollStatus_answered in H. cbn [fst] in H.
      destruct (pr_status data).
      * destruct H as (Ha & Hv & He & _). rewrite Ha, Hv, He. split; assumption.
      * destruct H as (Ha & Hv & He & _). rewrite Ha, Hv, He. split; assumption.
      * destruct H as (Ha & _). rewrite Ha.
        split; [discriminate|]. intros [H | H]; discriminate.
      * destruct H as (Ha & _ & He & _). rewrite Ha, He.
        split; [discriminate|]. intros [H | H]; discriminate.
    + rewrite (answered_nothing_delivered reply (client w) Hd). split; assumption.
Qed.

(** An answer that reads [done] or [error] clears the interval that
    [pollRef] holds, and does nothing else besides the setters. *)
Lemma answered_terminal_effects (reply : Reply PollResponse) (data : PollResponse)
  (st : Client) :
  delivered reply = Some data ->
  pr_status data = job_done \/ pr_status data = job_error ->
  snd (answered reply st)
  = match pollRef st with
    | Some held => [ClearInterval held]
    | None => []
    end.
Proof.
  destruct reply as [msg | code [msg | | data']]; simpl; try discriminate.
  destruct (ok code); [|discriminate].
  intros [= ->] Hs. unfold andThen, stopPolling. simpl.
  destruct (Js.truthy (orElse (pr_message data) []));
    destruct Hs as [-> | ->]; simpl;
    destruct (pollRef st) eqn:Href; simpl; rewrite ?Href; reflexivity.
Qed.

(** In every state the page reaches, an [error] state has its message, and
    nothing is stored in [idle] and [pending]. *)
Lemma settled_reachable (w : World) : reachable w -> settled (client w).
Proof.
  induction 1 as [|w e w' effects _ IH Hfire].
  - exact settled_start.
  - exact (settled_step w e w' effects IH Hfire).
Qed.

(* ---- C3 ----------------------------------------------------------------- *)

(** C3. The page does not keep the property: it handles the answer to a
    status request whenever the answer arrives, without testing [pollRef]
    or the job.  With one request for job j1 still under way when j1 is
    reported [done]: if the user clicks Generate, the late answer arrives
    and the new submission is accepted, the state is [processing] with
    [videoUrl] set; if instead the new submission fails and the late answer
    arrives after that, the state is [done] with both [videoUrl] and
    [errorMsg] set. *)
Theorem late_answers_break_the_cells :
  run lateThenAccepted start = Some processingWithVideo
  /\ reachable processingWithVideo
  /\ appState (client processingWithVideo) = processing
  /\ videoUrl (client processingWithVideo) = Some videoOne
  /\ run failedThenLate start = Some doneWithBoth
  /\ reachable doneWithBoth
  /\ appState (client doneWithBoth) = done
  /\ videoUrl (client doneWithBoth) = Some videoOne
  /\ errorMsg (client doneWithBoth) = Some (lit "fetch failed")
  /\ ~ cellsFollowState.
Proof.
  assert (Ha : run lateThenAccepted start = Some processingWithVideo) by reflexivity.
  assert (Hb : run failedThenLate start = Some doneWithBoth) by reflexivity.
  pose proof (run_from_start _ _ Ha) as Hra.
  pose proof (run_from_start _ _ Hb) as Hrb.
  repeat split; try assumption.
  intros Hall. destruct (Hall doneWithBoth Hrb) as (_ & _ & _ & _ & Hnot).
  apply Hnot. split; discriminate.
Qed.

(* ---- C5 ----------------------------------------------------------------- *)

(** C5, as worded, does not hold.  In [done] the Generate button is enabled
    ([canGenerate] looks at [isProcessing] only) and a click moves the state
    to [pending] without any reset; the answer to a status request that was
    under way moves [error] to [done], and the answer to a submission that
    was under way moves [done] to [processing]; and when two intervals run,
    the answer that reports j2 [done] stops the interval [pollRef] holds,
    that of j3, so that the interval of j2 goes on polling j2. *)
Lemma terminal_states_are_left :
  reachable finished
  /\ appState (client finished) = done
  /\ canGenerate (client finished) = true
  /\ fire UserClicksGenerate finished
     = Some (clickedAgain, [FetchGenerate (lit "hi")])
  /\ appState (client clickedAgain) = pending
  /\ reachable failedResubmission
  /\ appState (client failedResubmission) = error
  /\ fire (PollAnswered (lit "j1") (reported job_done 100 (Some videoOne) None))
       failedResubmission
     = Some (doneWithBoth, [])
  /\ appState (client doneWithBoth) = done
  /\ reachable doneWhileSubmitting
  /\ fire (SubmissionAnswered (accepted "j2")) doneWhileSubmitting
     = Some (processingWithVideo, [SetInterval (lit "j2")])
  /\ appState (client processingWithVideo) = processing
  /\ run twoAccepted start = Some leaked
  /\ appState (client leaked) = done
  /\ fire (IntervalFires (lit "j2")) leaked
     = Some ({| client := doneWithUrl; posts := 0; polls := [lit "j2"];
                intervals := [lit "j2"] |},
             [FetchStatus (lit "j2")])
  /\ ~ terminalIsFinal.
Proof.
  assert (Hleaked : run twoAccepted start = Some leaked) by reflexivity.
  assert (Hlate : reachable doneWhileSubmitting).
  { apply (run_from_start
             (oneAnswerLate
                ++ [UserClicksGenerate;
                    PollAnswered (lit "j1")
                      (reported job_done 100 (Some videoOne) None)])).
    reflexivity. }
  assert (Haccepted : fire (SubmissionAnswered (accepted "j2")) doneWhileSubmitting
                      = Some (processingWithVideo, [SetInterval (lit "j2")]))
    by reflexivity.
  assert (Hpolls : fire (IntervalFires (lit "j2")) leaked
                   = Some ({| client := doneWithUrl; posts := 0;
                              polls := [lit "j2"]; intervals := [lit "j2"] |},
                           [FetchStatus (lit "j2")])) by reflexivity.
  assert (Hfinished : reachable finished).
  { apply (run_from_start
             [UserTypes (lit "hi"); UserClicksGenerate;
              SubmissionAnswered (accepted "j1"); IntervalFires (lit "j1");
              PollAnswered (lit "j1") (reported job_done 100 (Some videoOne) None)]).
    reflexivity. }
  assert (Hfailed : reachable failedResubmission).
  { apply (run_from_start
             (oneAnswerLate
                ++ [UserClicksGenerate;
                    SubmissionAnswered (NetworkError (lit "fetch failed"))])).
    reflexivity. }
  assert (Hclick : fire UserClicksGenerate finished
                   = Some (clickedAgain, [FetchGenerate (lit "hi")]))
    by reflexivity.
  repeat split; try assumption.
  intros Hfinal.
  destruct (Hfinal finished UserClicksGenerate _ _ Hfinished (or_introl eq_refl) Hclick)
    as [H | [H _]]; discriminate.
Qed.

(** C5, amended.  A poll answer that reads [done] leaves the component in
    [done], one that reads [error] leaves it in [error]; either empties
    [pollRef] and stops the interval it held, so that, when this was the
    only interval running, no interval can fire in the state that results,
    and no status request is sent from it.  Of the user's actions and the
    firings of an interval, only a reset, which returns to [idle], and an
    enabled Generate, which moves to [pending] for another job, move the
    state out of [done] or [error].  (What the answer to a request that was
    under way does in such a state is not part of this statement.) *)
Theorem terminal_until_user_acts :
  (forall jobId reply data st,
     delivered reply = Some data ->
     (pr_status data = job_done ->
      appState (fst (pollStatus jobId reply st)) = done
      /\ pollRef (fst (pollStatus jobId reply st)) = None)
     /\ (pr_status data = job_error ->
         appState (fst (pollStatus jobId reply st)) = error
         /\ pollRef (fst (pollStatus jobId reply st)) = None))
  /\ (forall w jobId reply data w' effects,
        delivered reply = Some data ->
        pr_status data = job_done \/ pr_status data = job_error ->
        fire (PollAnswered jobId reply) w = Some (w', effects) ->
        pollRef (client w') = None
        /\ intervals w' = match pollRef (client w) with
                          | Some held => without held (intervals w)
                          | None => intervals w
                          end)
  /\ (forall w held jobId reply data w' effects next,
        delivered reply = Some data ->
        pr_status data = job_done \/ pr_status data = job_error ->
        pollRef (client w) = Some held -> intervals w = [held] ->
        fire (PollAnswered jobId reply) w = Some (w', effects) ->
        fire (IntervalFires next) w' = None)
  /\ (forall w e w' effects,
        terminalView (client w) ->
        fire e w = Some (w', effects) ->
        isAnswer e = false ->
        appState (client w') = appState (client w)
        \/ (e = UserResets /\ appState (client w') = idle)
        \/ (e = UserClicksGenerate /\ canGenerate (client w) = true
            /\ appState (client w') = pending)).
Proof.
  assert (Hstops : forall w jobId reply data w' effects,
            delivered reply = Some data ->
            pr_status data = job_done \/ pr_status data = job_error ->
            fire (PollAnswered jobId reply) w = Some (w', effects) ->
            pollRef (client w') = None
            /\ intervals w' = match pollRef (client w) with
                              | Some held => without held (intervals w)
                              | None => intervals w
                              end).
  { intros w jobId reply data w' effects Hd Hs Hfire. cbn [fire] in Hfire.
    destruct (take jobId (polls w)); [|discriminate].
    pose proof (handle_client _ _ _ _ Hfire) as Hclient.
    pose proof (handle_intervals _ _ _ _ Hfire) as Hint.
    rewrite (answered_terminal_effects reply data (client w) Hd Hs) in Hint.
    split.
    - rewrite Hclient.
      pose proof (PageFacts.pollStatus_delivered jobId reply data (client w) Hd)
        as (_ & _ & H).
      rewrite pollStatus_answered in H. cbn [fst] in H.
      destruct Hs as [Hs | Hs]; rewrite Hs in H; tauto.
    - rewrite Hint. now destruct (pollRef (client w)). }
  split; [|split; [exact Hstops|split]].
  - intros jobId reply data st Hd.
    pose proof (PageFacts.pollStatus_delivered jobId reply data st Hd) as (_ & _ & H).
    split; intros Hs; rewrite Hs in H; destruct H as (Ha & _ & _ & Hp);
      split; assumption.
  - intros w held jobId reply data w' effects next Hd Hs Href Hint Hfire.
    destruct (Hstops w jobId reply data w' effects Hd Hs Hfire) as [_ Hnone].
    rewrite Href, Hint in Hnone. unfold without in Hnone. cbn [take] in Hnone.
    rewrite JsFacts.str_eqb_refl in Hnone.
    cbn [fire]. unfold runs. rewrite Hnone. reflexivity.
  - intros w e w' effects Hterminal Hfire Hanswer.
    destruct e as [text | | reply | | jobId | jobId reply]; cbn [fire] in Hfire;
      try discriminate.
    + destruct (isProcessing (client w)); [discriminate|].
      apply handle_client in Hfire. rewrite Hfire. now left.
    + rewrite PageFacts.guard_canGenerate in Hfire.
      destruct (canGenerate (client w)) eqn:Hcan; cbn [negb] in Hfire.
      * apply handle_client in Hfire. rewrite Hfire. right; right.
        destruct (PageFacts.submit_cells (client w)) as (Ha & _).
        repeat split; assumption || reflexivity.
      * injection Hfire as <- _. now left.
    + destruct (PageView.showsError (client w) || PageView.showsVideo (client w));
        [|discriminate].
      apply handle_client in Hfire. rewrite Hfire. right; left.
      destruct (PageFacts.handleReset_cells (client w)) as (Ha & _).
      split; [reflexivity | exact Ha].
    + destruct (runs jobId w); [|discriminate].
      apply handle_client in Hfire. rewrite Hfire. now left.
Qed.

Lemma terminal_until_user_acts_witness :
  (appState (fst (pollStatus (lit "j1") (reported job_error 30 None None) polling))
   = error
   /\ pollRef (fst (pollStatus (lit "j1") (reported job_error 30 None None) polling))
      = None)
  /\ (pollRef (client finished) = None /\ intervals finished = [])
  /\ fire (IntervalFires (lit "j1")) finished = None
  /\ (appState (client clickedAgain) = appState (client finished)
      \/ (UserClicksGenerate = UserResets /\ appState (client clickedAgain) = idle)
      \/ (UserClicksGenerate = UserClicksGenerate
          /\ canGenerate (client finished) = true
          /\ appState (client clickedAgain) = pending)).
Proof.
  destruct terminal_until_user_acts as (Hpoll & Hstops & Hquiet & Hleave).
  split; [|split; [|split]].
  - exact (proj2 (Hpoll (lit "j1") (reported job_error 30 None None)
                    {| pr_status := job_error; pr_progress := Some 30;
                       pr_message := None; pr_url := None; pr_error := None |}
                    polling eq_refl) eq_refl).
  - exact (Hstops pollingOne (lit "j1")
             (reported job_done 100 (Some videoOne) None)
             {| pr_status := job_done; pr_progress := Some 100;
                pr_message := None; pr_url := Some videoOne; pr_error := None |}
             finished [ClearInterval (lit "j1")]
             eq_refl (or_introl eq_refl) eq_refl).
  - exact (Hquiet pollingOne (lit "j1") (lit "j1")
             (reported job_done 100 (Some videoOne) None)
             {| pr_status := job_done; pr_progress := Some 100;
                pr_message := None; pr_url := Some videoOne; pr_error := None |}
             finished [ClearInterval (lit "j1")] (lit "j1")
             eq_refl (or_introl eq_refl) eq_refl eq_refl eq_refl).
  - exact (Hleave finished UserClicksGenerate clickedAgain
             [FetchGenerate (lit "hi")] (or_introl eq_refl) eq_refl eq_refl).
Defined.

End AsyncFacts.

Module BackendFacts.
Import Backend.

Section OneJob.

(** The result location the last stage records for the job at hand. *)
Variable location : jsstring.


















End OneJob.



End BackendFacts.

Module CaptionFacts.
Import Backend.

Lemma length_cuesFrom (N : nat) (D : Q) (words : list jsstring) :
  forall i, List.length (cuesFrom N D i words) = List.length words.
Proof. induction words as [|w rest IH]; intros i; simpl; [reflexivity|]. now rewrite IH. Qed.

Lemma nth_cuesFrom (N : nat) (D : Q) (words : list jsstring) :
  forall i k, (k < List.length words)%nat ->
    nth k (cuesFrom N D i words) noCue = cue N D (i + k) (nth k words []).
Proof.
  induction words as [|w rest IH]; intros i k Hk; simpl in Hk; [lia|].
  destruct k as [|k]; simpl.
  - now rewrite Nat.add_0_r.
  - rewrite IH by lia. f_equal. lia.
Qed.

Lemma ofNat_le (i k : nat) : (i <= k)%nat -> (ofNat i <= ofNat k)%Q.
Proof. intros H. unfold ofNat. rewrite <- Zle_Qle. lia. Qed.

Lemma ofNat_pos (n : nat) : (1 <= n)%nat -> (0 < ofNat n)%Q.
Proof.
  intros H. unfold ofNat. change 0%Q with (inject_Z 0). rewrite <- Zlt_Qlt. lia.
Qed.

(** The boundaries [i*D/N] grow with [i]. *)
Lemma boundary_le (N : nat) (D : Q) (i k : nat) :
  (1 <= N)%nat -> (0 < D)%Q -> (i <= k)%nat ->
  (ofNat i * D / ofNat N <= ofNat k * D / ofNat N)%Q.
Proof.
  intros HN HD Hik. unfold Qdiv.
  apply Qmult_le_compat_r.
  - apply Qmult_le_compat_r; [now apply ofNat_le | now apply Qlt_le_weak].
  - apply Qlt_le_weak, Qinv_lt_0_compat. now apply ofNat_pos.
Qed.

Lemma start_cue (N : nat) (D : Q) (i : nat) (w : jsstring) :
  startSeconds (cue N D i w) = (ofNat i * D / ofNat N)%Q.
Proof. reflexivity. Qed.

(** The end of cue [i] is the boundary [(i+1)*D/N]; for the last cue it is
    [D] itself, which is the same number. *)
Lemma end_cue (N : nat) (D : Q) (i : nat) (w : jsstring) :
  (1 <= N)%nat ->
  (endSeconds (cue N D i w) == ofNat (S i) * D / ofNat N)%Q.
Proof.
  intros HN. unfold cue. cbn [endSeconds].
  destruct (Nat.eqb_spec (S i) N) as [<- | _].
  - assert (Hpos : (0 < ofNat (S i))%Q) by now apply ofNat_pos.
    generalize dependent (ofNat (S i)). intros n Hpos.
    field. intros H0. rewrite H0 in Hpos. now apply Qlt_irrefl in Hpos.
  - reflexivity.
Qed.

Lemma last_nth (cues : list CaptionCue) :
  last cues noCue = nth (List.length cues - 1) cues noCue.
Proof.
  induction cues as [|c rest IH]; [reflexivity|].
  destruct rest as [|c' rest']; [reflexivity|].
  change (last (c :: c' :: rest') noCue) with (last (c' :: rest') noCue).
  rewrite IH. simpl. now rewrite Nat.sub_0_r.
Qed.

(** C7. For every list of N >= 1 words and every duration D > 0 the Caption
    Timer succeeds with exactly N cues; cue i carries word i and spans
    [i*D/N, (i+1)*D/N); starts and ends never decrease along the sequence;
    a cue ends no later than the next one starts, so cues do not overlap;
    and the end of the final cue is D itself. *)
Theorem cues_cover_the_duration (words : list jsstring) (D : Q) :
  (1 <= List.length words)%nat -> (0 < D)%Q ->
  let N := List.length words in
  exists cues,
    computeCues words D = Some cues
    /\ List.length cues = N
    /\ (forall i, (i < N)%nat ->
          word (nth i cues noCue) = nth i words []
          /\ startSeconds (nth i cues noCue) = (ofNat i * D / ofNat N)%Q
          /\ (endSeconds (nth i cues noCue) == ofNat (S i) * D / ofNat N)%Q
          /\ (startSeconds (nth i cues noCue) <= endSeconds (nth i cues noCue))%Q)
    /\ (forall i k, (i <= k)%nat -> (k < N)%nat ->
          (startSeconds (nth i cues noCue) <= startSeconds (nth k cues noCue))%Q
          /\ (endSeconds (nth i cues noCue) <= endSeconds (nth k cues noCue))%Q)
    /\ (forall i, (S i < N)%nat ->
          (endSeconds (nth i cues noCue) <= startSeconds (nth (S i) cues noCue))%Q)
    /\ endSeconds (last cues noCue) = D.
Proof.
  intros HN HD N.
  exists (cuesFrom N D 0 words).
  assert (Hnth : forall i, (i < N)%nat ->
            nth i (cuesFrom N D 0 words) noCue = cue N D i (nth i words [])).
  { intros i Hi. now rewrite nth_cuesFrom. }
  split.
  { unfold computeCues. destruct words; [simpl in HN; lia | reflexivity]. }
  split; [apply length_cuesFrom|].
  split; [|split; [|split]].
  - intros i Hi. rewrite (Hnth i Hi).
    split; [reflexivity|]. split; [reflexivity|]. split; [now apply end_cue|].
    rewrite end_cue by exact HN. rewrite start_cue.
    apply boundary_le; try assumption. lia.
  - intros i k Hik Hk. rewrite (Hnth i) by lia. rewrite (Hnth k Hk). split.
    + rewrite !start_cue. now apply boundary_le.
    + rewrite !end_cue by exact HN. apply boundary_le; try assumption. lia.
  - intros i Hi. rewrite (Hnth i) by lia. rewrite (Hnth (S i) Hi).
    rewrite end_cue by exact HN. rewrite start_cue. apply Qle_refl.
  - rewrite last_nth, length_cuesFrom. fold N. rewrite Hnth by lia.
    unfold cue. cbn [endSeconds].
    replace (S (N - 1)) with N by lia. now rewrite Nat.eqb_refl.
Qed.

Lemma cues_cover_the_duration_witness :
  computeCues helloWorld 3
  = Some [ {| word := lit "Hello"; startSeconds := (0 * 3 / 2)%Q;
              endSeconds := (1 * 3 / 2)%Q |};
           {| word := lit "world"; startSeconds := (1 * 3 / 2)%Q;
              endSeconds := 3%Q |} ]
  /\ exists cues,
       computeCues helloWorld 3 = Some cues
       /\ List.length cues = 2%nat
       /\ endSeconds (last cues noCue) = 3%Q.
Proof.
  split; [reflexivity|].
  destruct (cues_cover_the_duration helloWorld 3) as (cues & H1 & H2 & _ & _ & _ & H6).
  - simpl. lia.
  - reflexivity.
  - exists cues. repeat split; assumption.
Defined.

End CaptionFacts.

Module RouteFacts.
Import Json Proxy.

(* ---- The status route ---------------------------------------------------- *)

Lemma GET_replied (env : option jsstring) (jobId : jsstring) (code : Z)
  (data data' : json) :
  StatusRoute.rewriteUrl env data = Some data' ->
  snd (StatusRoute.GET env jobId (Replied code (Some data))) = respond data' code.
Proof. intros H. unfold StatusRoute.GET. now rewrite H. Qed.

Lemma rewriteUrl_without_url (env : option jsstring) (data : json) :
  getProp data (lit "url") = Undefined -> StatusRoute.rewriteUrl env data = Some data.
Proof. intros H. unfold StatusRoute.rewriteUrl. now rewrite H. Qed.

Lemma rewriteUrl_absolute (env : option jsstring) (data : json) (u : jsstring) :
  getProp data (lit "url") = Value (JStr u) ->
  startsWith u (lit "http") = true ->
  StatusRoute.rewriteUrl env data = Some data.
Proof.
  intros H Hu. unfold StatusRoute.rewriteUrl. rewrite H, Hu.
  now destruct (truthy (JStr u)).
Qed.

(** What the rewriting of the video URL returns when it does not throw. *)
Lemma rewriteUrl_cases (env : option jsstring) (data data' : json) :
  StatusRoute.rewriteUrl env data = Some data' ->
  data' = data
  \/ exists u,
       getProp data (lit "url") = Value (JStr u)
       /\ Js.truthy u = true
       /\ startsWith u (lit "http") = false
       /\ data' = setProp data (lit "url") (JStr (StatusRoute.BACKEND_URL env ++ u)).
Proof.
  unfold StatusRoute.rewriteUrl.
  destruct (getProp data (lit "url")) as [| | v] eqn:Hget; try discriminate.
  - intros [= <-]. now left.
  - destruct (truthy v) eqn:Htruthy.
    + destruct v as [| b | n | u | items | fields]; try discriminate.
      destruct (startsWith u (lit "http")) eqn:Hu; simpl; intros [= <-].
      * now left.
      * right. exists u. repeat split; assumption.
    + intros [= <-]. now left.
Qed.

(** The route never answers ok when the back end did not. *)
Lemma GET_not_ok (env : option jsstring) (jobId : jsstring) (code : Z)
  (body : option json) :
  ok code = false ->
  ok (resStatus (snd (StatusRoute.GET env jobId (Replied code body)))) = false.
Proof.
  intros Hcode. unfold StatusRoute.GET.
  destruct body as [data|]; [|reflexivity].
  destruct (StatusRoute.rewriteUrl env data); [exact Hcode | reflexivity].
Qed.

(** C6. A status query for an unknown job is answered not-found, never as a
    job that is pending.  The status route returns the body the back end
    sent (its [url] made absolute, if it has one) under the back end's own
    status code, so that a 404 stays a 404; whatever the body, a status that
    is not ok never becomes ok; and the polling client, on a response that
    is not ok, reads nothing from it and leaves its state as it was. *)
Theorem unknown_job_is_not_found (env : option jsstring) (jobId : jsstring)
  (code : Z) (body : option json) :
  let r := snd (StatusRoute.GET env jobId (Replied code body)) in
  (forall data data',
     body = Some data -> StatusRoute.rewriteUrl env data = Some data' ->
     r = respond data' code)
  /\ (forall data,
        body = Some data -> getProp data (lit "url") = Undefined ->
        r = respond data code)
  /\ (ok code = false ->
        ok (resStatus r) = false
        /\ forall (parsed : Parsed Page.PollResponse) (st : Page.Client),
             Page.pollStatus jobId (Response (resStatus r) parsed) st
             = (st, [Page.FetchStatus jobId])).
Proof.
  intros r. split; [|split].
  - intros data data' -> Hrewrite. now apply GET_replied.
  - intros data -> Hurl. apply GET_replied. now apply rewriteUrl_without_url.
  - intros Hcode.
    assert (Hr : ok (resStatus r) = false) by now apply GET_not_ok.
    split; [exact Hr|].
    intros parsed st. apply PageFacts.pollStatus_nothing_delivered.
    simpl. rewrite Hr. now destruct parsed.
Qed.

Lemma unknown_job_is_not_found_witness :
  snd (StatusRoute.GET None (lit "nope") (Replied 404 (Some notFoundBody)))
  = respond notFoundBody 404
  /\ ok 404 = false
  /\ Page.pollStatus (lit "nope") (Response 404 (JsonThrows [])) Page.polling
     = (Page.polling, [Page.FetchStatus (lit "nope")]).
Proof.
  destruct (unknown_job_is_not_found None (lit "nope") 404 (Some notFoundBody))
    as (_ & H2 & H3).
  split; [exact (H2 notFoundBody eq_refl eq_refl)|].
  split; [reflexivity|].
  exact (proj2 (H3 eq_refl) (JsonThrows []) Page.polling).
Defined.

(* ---- The generate route -------------------------------------------------- *)

Lemma POST_replied (env : option jsstring) (body payload : json) (code : Z)
  (data : json) :
  GenerateRoute.forwarded body = Some payload ->
  GenerateRoute.POST env (Some body) (Replied code (Some data))
  = ([ {| reqMethod := lit "POST";
          reqUrl := GenerateRoute.BACKEND_URL env ++ lit "/jobs";
          reqBody := Some payload |} ],
     respond data code).
Proof. intros H. unfold GenerateRoute.POST. now rewrite H. Qed.

(** The payload sent to the back end is made of [body.text] alone. *)
Lemma forwarded_text_only (body payload : json) :
  GenerateRoute.forwarded body = Some payload ->
  (getProp body (lit "text") = Undefined /\ payload = JObj [])
  \/ exists v, getProp body (lit "text") = Value v
               /\ payload = JObj [(lit "text", v)].
Proof.
  unfold GenerateRoute.forwarded.
  destruct (getProp body (lit "text")) as [| | v]; try discriminate; intros [= <-].
  - now left.
  - right. now exists v.
Qed.

(** Whatever the route sends to the back end is such a payload. *)
Lemma POST_forwards_text_only (env : option jsstring) (body : option json)
  (up : Upstream) (request : UpstreamRequest) :
  In request (fst (GenerateRoute.POST env body up)) ->
  exists submitted payload,
    body = Some submitted
    /\ GenerateRoute.forwarded submitted = Some payload
    /\ reqBody request = Some payload
    /\ reqUrl request = GenerateRoute.BACKEND_URL env ++ lit "/jobs".
Proof.
  unfold GenerateRoute.POST.
  destruct body as [submitted|]; [|intros []].
  destruct (GenerateRoute.forwarded submitted) as [payload|] eqn:Hf; [|intros []].
  intros Hin. exists submitted, payload.
  destruct up as [| code [data|]]; destruct Hin as [<- | []]; repeat split;
    (reflexivity || exact Hf).
Qed.

Lemma POST_drops_other_fields :
  fst (GenerateRoute.POST None (Some submission) (Replied 202 (Some acceptedBody)))
  = [ {| reqMethod := lit "POST";
         reqUrl := lit "http://localhost:8000/jobs";
         reqBody := Some (JObj [(lit "text", JStr (lit "hi"))]) |} ].
Proof. reflexivity. Qed.

(** The prefix test of [BACKEND_URL]: the result starts with the four
    letters [http], and [https://] is put in front exactly when the
    configured value does not. *)
Lemma BACKEND_URL_starts_with_http (env : option jsstring) :
  startsWith (GenerateRoute.BACKEND_URL env) (lit "http") = true
  /\ (startsWith (GenerateRoute.raw env) (lit "http") = false ->
      GenerateRoute.BACKEND_URL env = lit "https://" ++ GenerateRoute.raw env)
  /\ (startsWith (GenerateRoute.raw env) (lit "http") = true ->
      GenerateRoute.BACKEND_URL env = GenerateRoute.raw env).
Proof.
  unfold GenerateRoute.BACKEND_URL.
  destruct (startsWith (GenerateRoute.raw env) (lit "http")) eqn:H.
  - repeat split; auto. discriminate.
  - repeat split; auto. discriminate.
Qed.

(** C10. The base URL is meant to carry a protocol prefix always (the
    comment above [BACKEND_URL] says so), and it does not: a configured host
    whose name begins with the letters [http], such as [httpbin.org],
    passes the [startsWith("http")] test and is used as it is, with neither
    [http://] nor [https://] in front. *)
Theorem backend_url_without_protocol :
  GenerateRoute.BACKEND_URL (Some (lit "httpbin.org")) = lit "httpbin.org"
  /\ hasProtocol (GenerateRoute.BACKEND_URL (Some (lit "httpbin.org"))) = false
  /\ fst (GenerateRoute.POST (Some (lit "httpbin.org")) (Some submission) Unreachable)
     = [ {| reqMethod := lit "POST";
            reqUrl := lit "httpbin.org/jobs";
            reqBody := Some (JObj [(lit "text", JStr (lit "hi"))]) |} ].
Proof. repeat split; reflexivity. Qed.

(* ---- Both routes as relays ----------------------------------------------- *)

(** The rewriting of the video URL, by cases on the body. *)
Lemma rewriteUrl_result (env : option jsstring) (data : json) :
  StatusRoute.rewriteUrl env data
  = if Shapes.urlThrows data then None
    else Some match Shapes.relativeUrl data with
              | Some u =>
                  setProp data (lit "url")
                    (JStr (StatusRoute.BACKEND_URL env ++ u))
              | None => data
              end.
Proof.
  unfold StatusRoute.rewriteUrl, Shapes.urlThrows, Shapes.relativeUrl, getProp.
  destruct data as [| b | n | s | items | fields]; try reflexivity.
  destruct (lookup (lit "url") fields) as [v|]; [|reflexivity].
  destruct v as [| b | n | u | items | fs]; cbn [truthy]; try reflexivity.
  destruct (Js.truthy u); [|reflexivity].
  now destruct (startsWith u (lit "http")).
Qed.

Lemma urlThrows_cases (data : json) :
  Shapes.urlThrows data = true <->
  data = JNull
  \/ exists v,
       getProp data (lit "url") = Value v
       /\ truthy v = true /\ forall u, v <> JStr u.
Proof.
  unfold Shapes.urlThrows, getProp. split.
  - destruct data as [| b | n | s | items | fields]; try discriminate;
      [now left|].
    destruct (lookup (lit "url") fields) as [v|]; [|discriminate].
    intros Hv. right. exists v.
    destruct v; try discriminate; repeat split; try assumption;
      intros u; discriminate.
  - intros [-> | (v & Hget & Htruthy & Hstr)]; [reflexivity|].
    destruct data as [| b | n | s | items | fields]; try discriminate.
    destruct (lookup (lit "url") fields) as [v'|]; [|discriminate].
    assert (v' = v) by congruence. subst v'.
    destruct v; try assumption. now destruct (Hstr s).
Qed.

Lemma relativeUrl_cases (data : json) (u : jsstring) :
  Shapes.relativeUrl data = Some u <->
  getProp data (lit "url") = Value (JStr u)
  /\ Js.truthy u = true /\ startsWith u (lit "http") = false.
Proof.
  unfold Shapes.relativeUrl. split.
  - destruct (getProp data (lit "url")) as [| | [| b | n | s | items | fs]];
      try discriminate.
    destruct (Js.truthy s) eqn:Htruthy; [|discriminate].
    destruct (startsWith s (lit "http")) eqn:Hhttp; [discriminate|].
    cbn [andb negb]. intros H. assert (s = u) by congruence. subst s.
    repeat split; assumption.
  - intros (-> & -> & ->). reflexivity.
Qed.

(** C8, as worded, does not hold: the status route rewrites a relative
    [url] of the body into an absolute one before it returns the body, and
    it answers with a body of its own, under the code 502, when the back
    end's body is [null] or carries a [url] that is truthy and not a
    string. *)
Lemma status_route_rewrites_url :
  snd (StatusRoute.GET None (lit "j1") (Replied 200 (Some doneBody)))
  = respond doneBodyRewritten 200
  /\ doneBodyRewritten <> doneBody
  /\ snd (StatusRoute.GET None (lit "j1") (Replied 200 (Some Shapes.numericUrl)))
     = StatusRoute.unreachable
  /\ snd (StatusRoute.GET None (lit "j1") (Replied 200 (Some JNull)))
     = StatusRoute.unreachable
  /\ resBody StatusRoute.unreachable <> Shapes.numericUrl
  /\ resBody StatusRoute.unreachable <> JNull
  /\ ~ passThrough.
Proof.
  assert (Hneq : doneBodyRewritten <> doneBody) by discriminate.
  split; [reflexivity|]. split; [assumption|].
  split; [reflexivity|]. split; [reflexivity|].
  split; [discriminate|]. split; [discriminate|].
  intros Hpass.
  destruct (Hpass None 200 doneBody) as [Hget _].
  specialize (Hget (lit "j1")). simpl in Hget. now apply Hneq.
Qed.

(** C8, amended.  Whenever the back end answers with a body that parses as
    JSON, the generate route returns that body, as the parsed value, under
    the back end's status code.  The status route answers by cases on the
    parsed body.  When the body is [null], or carries a [url] that is truthy
    and not a string, it answers with its own body and the code 502.
    Otherwise it answers under the back end's status code, with the body in
    which a [url] that is a non-empty string not starting with [http] is
    replaced by [BACKEND_URL] followed by it, and with the body as it is
    when there is no such [url]: when [url] is missing, or falsy, or a
    string that starts with [http]. *)
Theorem proxies_relay_the_body (env : option jsstring) (code : Z) (data : json) :
  (forall body payload,
     GenerateRoute.forwarded body = Some payload ->
     snd (GenerateRoute.POST env (Some body) (Replied code (Some data)))
     = respond data code)
  /\ (forall jobId,
        snd (StatusRoute.GET env jobId (Replied code (Some data)))
        = if Shapes.urlThrows data then StatusRoute.unreachable
          else match Shapes.relativeUrl data with
               | Some u =>
                   respond
                     (setProp data (lit "url")
                        (JStr (StatusRoute.BACKEND_URL env ++ u)))
                     code
               | None => respond data code
               end)
  /\ (Shapes.urlThrows data = true <->
      data = JNull
      \/ exists v,
           getProp data (lit "url") = Value v
           /\ truthy v = true /\ forall u, v <> JStr u)
  /\ (forall u,
        Shapes.relativeUrl data = Some u <->
        getProp data (lit "url") = Value (JStr u)
        /\ Js.truthy u = true /\ startsWith u (lit "http") = false)
  /\ (forall jobId,
        getProp data (lit "url") = Undefined
        \/ (exists v,
              getProp data (lit "url") = Value v
              /\ (truthy v = false
                  \/ exists u, v = JStr u /\ startsWith u (lit "http") = true)) ->
        snd (StatusRoute.GET env jobId (Replied code (Some data)))
        = respond data code).
Proof.
  split; [|split; [|split; [|split]]].
  - intros body payload Hf. now rewrite (POST_replied env body payload code data Hf).
  - intros jobId. unfold StatusRoute.GET. rewrite rewriteUrl_result.
    destruct (Shapes.urlThrows data); [reflexivity|].
    destruct (Shapes.relativeUrl data); reflexivity.
  - apply urlThrows_cases.
  - intros u. apply relativeUrl_cases.
  - intros jobId Hurl. apply GET_replied.
    destruct Hurl as [Hnone | (v & Hget & [Hfalsy | (u & -> & Hhttp)])].
    + now apply rewriteUrl_without_url.
    + unfold StatusRoute.rewriteUrl. rewrite Hget, Hfalsy. reflexivity.
    + now apply (rewriteUrl_absolute env data u).
Qed.

Lemma proxies_relay_the_body_witness :
  snd (GenerateRoute.POST None (Some submission) (Replied 202 (Some acceptedBody)))
  = respond acceptedBody 202
  /\ snd (StatusRoute.GET None (lit "j1") (Replied 200 (Some doneBody)))
     = respond doneBodyRewritten 200
  /\ snd (StatusRoute.GET None (lit "j1") (Replied 200 (Some doneBodyRewritten)))
     = respond doneBodyRewritten 200
  /\ snd (StatusRoute.GET None (lit "j1") (Replied 200 (Some Shapes.numericUrl)))
     = StatusRoute.unreachable.
Proof.
  split; [|split; [|split]].
  - exact (proj1 (proxies_relay_the_body None 202 acceptedBody) submission
             (JObj [(lit "text", JStr (lit "hi"))]) eq_refl).
  - exact (proj1 (proj2 (proxies_relay_the_body None 200 doneBody)) (lit "j1")).
  - apply (proj2 (proj2 (proj2 (proj2
             (proxies_relay_the_body None 200 doneBodyRewritten)))) (lit "j1")).
    right. exists (JStr (lit "http://localhost:8000/videos/j1.mp4")).
    split; [reflexivity|]. right.
    exists (lit "http://localhost:8000/videos/j1.mp4"). split; reflexivity.
  - exact (proj1 (proj2 (proxies_relay_the_body None 200 Shapes.numericUrl))
             (lit "j1")).
Defined.

End RouteFacts.

(* ========================================================================= *)
(** * Further properties of the page                                          *)
(* ========================================================================= *)

Module TrimFacts.

Lemma trimStart_empty (s : jsstring) : trimStart s = [] -> whitespaceOnly s.
Proof.
  induction s as [|c r IH]; simpl; intros H; [constructor|].
  destruct (isWhiteSpace c) eqn:Hc; [|discriminate].
  constructor; [exact Hc | now apply IH].
Qed.

Lemma trimStart_whitespace_back (s : jsstring) :
  whitespaceOnly (trimStart s) -> whitespaceOnly s.
Proof.
  induction s as [|c r IH]; simpl; intros H; [constructor|].
  destruct (isWhiteSpace c) eqn:Hc.
  - constructor; [exact Hc | now apply IH].
  - inversion H as [|? ? Hc' _]; subst. congruence.
Qed.

(** [trim] yields the empty string on white space only, and only there. *)
Lemma trim_empty_iff (s : jsstring) : trim s = [] <-> whitespaceOnly s.
Proof.
  split; [|apply JsFacts.trim_whitespaceOnly].
  unfold trim, trimEnd. intros H.
  apply trimStart_whitespace_back.
  assert (Hrev : trimStart (rev (trimStart s)) = []).
  { destruct (trimStart (rev (trimStart s))) as [|c r]; [reflexivity|].
    simpl in H. now destruct (rev r). }
  apply trimStart_empty in Hrev. unfold whitespaceOnly in *.
  rewrite <- (rev_involutive (trimStart s)). now apply Forall_rev.
Qed.

Lemma not_whitespaceOnly (s : jsstring) :
  ~ whitespaceOnly s <-> exists c, In c s /\ isWhiteSpace c = false.
Proof.
  unfold whitespaceOnly. split.
  - intros H. induction s as [|c r IH].
    + exfalso. apply H. constructor.
    + destruct (isWhiteSpace c) eqn:Hc.
      * destruct IH as (d & Hd & Hws).
        { intros Hr. apply H. now constructor. }
        exists d. split; [now right | exact Hws].
      * exists c. split; [now left | exact Hc].
  - intros (c & Hin & Hc) Hall. rewrite Forall_forall in Hall.
    specialize (Hall c Hin). congruence.
Qed.

End TrimFacts.

Module ButtonFacts.
Import Page.

(** What an enabled button says about the script. *)
Lemma canGenerate_script (st : Client) :
  canGenerate st = true ->
  charCount st <= MAX_CHARS /\ ~ whitespaceOnly (script st).
Proof.
  unfold canGenerate, isOverLimit. rewrite !andb_true_iff, !negb_true_iff.
  rewrite Z.ltb_ge, <- TrimFacts.trim_empty_iff.
  intros [[Hlen _] Hc]. split; [exact Hc|].
  intros Hnil. rewrite Hnil in Hlen. discriminate.
Qed.

(** X1. The Generate button is enabled exactly when the script has a
    character that is not white space, no job is pending or processing, and
    the script has at most [MAX_CHARS] characters. *)
Theorem canGenerate_exactly (st : Client) :
  canGenerate st = true
  <-> (exists c, In c (script st) /\ isWhiteSpace c = false)
      /\ isProcessing st = false
      /\ charCount st <= MAX_CHARS.
Proof.
  unfold canGenerate, isOverLimit. rewrite !andb_true_iff, !negb_true_iff.
  rewrite Z.ltb_ge, <- TrimFacts.not_whitespaceOnly, <- TrimFacts.trim_empty_iff.
  split.
  - intros [[Hlen Hp] Hc]. repeat split; try assumption.
    intros Hnil. rewrite Hnil in Hlen. discriminate.
  - intros (Hne & Hp & Hc). repeat split; try assumption.
    destruct (trim (script st)); [congruence | reflexivity].
Qed.

Lemma canGenerate_exactly_witness :
  canGenerate doneWithUrl = true /\ canGenerate blank = false.
Proof.
  split.
  - apply (proj2 (canGenerate_exactly doneWithUrl)).
    split; [|split; [reflexivity | discriminate]].
    exists 104%N. split; [now left | reflexivity].
  - destruct (canGenerate blank) eqn:Hcan; [|reflexivity].
    destruct (proj1 (canGenerate_exactly blank) Hcan)
      as ((c & Hin & Hc) & _).
    simpl in Hin. destruct Hin as [<- | [<- | [<- | []]]]; discriminate.
Defined.

(** X2. A click on Generate sends a request exactly when the button is
    enabled; it then sends one request, carrying the script as typed
    (untrimmed), after clearing a running interval, and leaves the component
    [pending] with result, error and progress cleared.  A click while the
    button is disabled does nothing. *)
Theorem click_submits_when_enabled (st : Client) :
  (canGenerate st = true ->
     exists st',
       fire ClickGenerate st
       = Some (st', snd (stopPolling st) ++ [FetchGenerate (script st)])
       /\ script st' = script st /\ appState st' = pending
       /\ progress st' = 0 /\ videoUrl st' = None /\ errorMsg st' = None
       /\ pollRef st' = None)
  /\ (canGenerate st = false -> fire ClickGenerate st = Some (st, [])).
Proof.
  split; intros Hcan; cbn [fire]; rewrite PageFacts.guard_canGenerate, Hcan;
    cbn [negb]; [|reflexivity].
  exists (fst (submit st)). unfold submit, andThen, stopPolling.
  destruct (pollRef st) eqn:Href; simpl; rewrite ?Href; repeat split; reflexivity.
Qed.

Lemma click_submits_when_enabled_witness :
  (exists st',
     fire ClickGenerate doneWithUrl = Some (st', [FetchGenerate (lit "hi")])
     /\ appState st' = pending /\ videoUrl st' = None)
  /\ fire ClickGenerate overLong = Some (overLong, []).
Proof.
  split.
  - destruct (proj1 (click_submits_when_enabled doneWithUrl) eq_refl)
      as (st' & Hfire & _ & Hpending & _ & Hvideo & _).
    exists st'. repeat split; assumption.
  - exact (proj2 (click_submits_when_enabled overLong) eq_refl).
Defined.

End ButtonFacts.

Module HandlerFacts.
Import Page.

(** X3. The answer to a submission starts the polling exactly when it is an
    ok response whose body parses to a value: the component then shows
    [processing] and one interval is set, for the [jobId] of the body.  In
    every other case - the request failed, the body did not parse or was
    null, the status was not ok - it shows [error] with a message, sets no
    interval and performs no effect; for a response that is not ok the
    message is the [detail] of the body if it has one, else its [error],
    else the text "Server error" with the status code. *)
Theorem answer_starts_polling_or_fails (reply : Reply GenerateResponse) (st : Client) :
  let st' := fst (settle reply st) in
  let effects := snd (settle reply st) in
  (appState st' = processing
   <-> exists code data, reply = Response code (JsonValue data) /\ ok code = true)
  /\ (forall code data,
        reply = Response code (JsonValue data) -> ok code = true ->
        pollRef st' = Some (jobIdText data)
        /\ effects = [SetInterval (jobIdText data)]
        /\ errorMsg st' = errorMsg st)
  /\ (appState st' <> processing ->
        appState st' = error /\ errorMsg st' <> None /\ effects = []
        /\ pollRef st' = pollRef st)
  /\ (forall code data,
        reply = Response code (JsonValue data) -> ok code = false ->
        errorMsg st'
        = Some (match gr_detail data, gr_error data with
                | Some detail, _ => detail
                | None, Some message => message
                | None, None => lit "Server error " ++ ofInt code
                end))
  /\ script st' = script st /\ progress st' = progress st
  /\ videoUrl st' = videoUrl st.
Proof.
  intros st' effects. subst st' effects. unfold settle.
  destruct reply as [msg | code [msg | | data]]; try destruct (ok code) eqn:Hok;
    simpl; repeat split;
    try (intros; discriminate); try reflexivity; try congruence;
    try (intros (c & d & Heq & Hc); congruence).
  - intros _. now exists code, data.
  - intros c d Heq _. injection Heq as <- <-.
    destruct (gr_detail data), (gr_error data); reflexivity.
Qed.

Lemma answer_starts_polling_or_fails_witness :
  pollRef (fst (settle (accepted "j2") resubmitted)) = Some (lit "j2")
  /\ snd (settle (accepted "j2") resubmitted) = [SetInterval (lit "j2")]
  /\ appState (fst (settle (NetworkError (lit "fetch failed")) resubmitted)) = error
  /\ snd (settle (NetworkError (lit "fetch failed")) resubmitted) = [].
Proof.
  destruct (answer_starts_polling_or_fails (accepted "j2") resubmitted)
    as (_ & Hok & _).
  destruct (Hok 202 _ eq_refl eq_refl) as (H1 & H2 & _).
  destruct (answer_starts_polling_or_fails (NetworkError (lit "fetch failed"))
              resubmitted) as (_ & _ & Hfail & _).
  destruct Hfail as (H3 & _ & H4 & _); [discriminate|].
  repeat split; assumption.
Defined.


(** X6. While a job is pending or processing the status message is never
    empty, so the progress panel always shows the component's own message
    and never its fallback text "Processing...". *)
Theorem status_message_while_processing (st : Client) :
  reachable st -> isProcessing st = true ->
  statusMessage st <> [] /\ PageView.progressText st = statusMessage st.
Proof.
  intros Hreach.
  assert (Hinv : isProcessing st = true -> Js.truthy (statusMessage st) = true).
  { induction Hreach as [|st e st' _ IH _ [effects Hfire]]; [discriminate|].
    destruct e as [text | | reply | | reply]; simpl in Hfire.
    - apply PageFacts.some_pair_fst in Hfire. subst st'. exact IH.
    - apply PageFacts.some_pair_fst in Hfire. subst st'.
      destruct (blocked st); [exact IH|]. intros _.
      unfold submit, andThen, stopPolling. now destruct (pollRef st).
    - destruct (appState st); try discriminate.
      apply PageFacts.some_pair_fst in Hfire. subst st'. unfold settle.
      destruct reply as [msg | code [msg | | data]]; try destruct (ok code);
        simpl; (discriminate || reflexivity).
    - apply PageFacts.some_pair_fst in Hfire. subst st'.
      unfold handleReset, andThen, stopPolling.
      destruct (pollRef st); simpl; discriminate.
    - destruct (pollRef st) as [jobId|] eqn:Href; [|discriminate].
      apply PageFacts.some_pair_fst in Hfire. subst st'.
      unfold pollStatus, andThen, stopPolling, isProcessing in *.
      destruct reply as [msg | code [msg | | data]]; try destruct (ok code);
        simpl; try exact IH.
      destruct (Js.truthy (orElse (pr_message data) [])) eqn:Hm;
        destruct (pr_status data); simpl; rewrite ?Href; simpl;
        try discriminate; try exact IH; intros _; exact Hm. }
  intros Hp. specialize (Hinv Hp). unfold PageView.progressText.
  rewrite Hinv. split; [|reflexivity].
  intros Hnil. rewrite Hnil in Hinv. discriminate.
Qed.

Lemma status_message_while_processing_witness :
  statusMessage polling <> [] /\ PageView.progressText polling = statusMessage polling.
Proof.
  apply (status_message_while_processing polling).
  - apply (PageFacts.run_from_initial submitted). reflexivity.
  - reflexivity.
Defined.

(** X7. The progress panel, the error box and the video preview are never
    rendered together, and none of them is rendered in [idle].  In every
    state the page reaches, answers that arrive late included, an [error]
    state has a message stored, so that the error box is rendered unless
    that message is the empty string; and in [idle] and [pending] neither a
    video URL nor an error message is stored. *)
Theorem one_panel_at_a_time (w : Async.World) :
  let st := Async.client w in
  (PageView.showsProgress st && PageView.showsError st = false)
  /\ (PageView.showsProgress st && PageView.showsVideo st = false)
  /\ (PageView.showsError st && PageView.showsVideo st = false)
  /\ (appState st = idle ->
      PageView.showsProgress st = false /\ PageView.showsError st = false
      /\ PageView.showsVideo st = false)
  /\ (Async.reachable w ->
      (appState st = error ->
       exists message,
         errorMsg st = Some message
         /\ PageView.showsError st = Js.truthy message)
      /\ (appState st = idle \/ appState st = pending ->
          videoUrl st = None /\ errorMsg st = None)).
Proof.
  intros st.
  unfold PageView.showsProgress, PageView.showsError, PageView.showsVideo,
    isProcessing.
  split; [now destruct (appState st)|].
  split; [now destruct (appState st)|].
  split; [destruct (appState st); simpl; auto using andb_false_r|].
  split; [intros Happ; rewrite Happ; repeat split; reflexivity|].
  intros Hreach.
  destruct (AsyncFacts.settled_reachable w Hreach) as [Herr Hquiet].
  fold st in Herr, Hquiet. split; [|exact Hquiet].
  intros Happ. specialize (Herr Happ). rewrite Happ.
  destruct (errorMsg st) as [message|]; [|congruence].
  exists message. split; reflexivity.
Qed.

Lemma one_panel_at_a_time_witness :
  exists message,
    errorMsg (Async.client Async.failedResubmission) = Some message
    /\ PageView.showsError (Async.client Async.failedResubmission)
       = Js.truthy message.
Proof.
  destruct (one_panel_at_a_time Async.failedResubmission) as (_ & _ & _ & _ & Hreach).
  apply Hreach; [|reflexivity].
  apply (AsyncFacts.run_from_start
           (Async.oneAnswerLate
              ++ [Async.UserClicksGenerate;
                  Async.SubmissionAnswered (NetworkError (lit "fetch failed"))])).
  reflexivity.
Defined.

End HandlerFacts.

Module TimerFacts.
Import Page Timer.

Lemma some_pair_eq {A B : Type} (p : A * B) (a : A) (b : B) :
  Some p = Some (a, b) -> a = fst p /\ b = snd p.
Proof. intros [= ->]. split; reflexivity. Qed.

Lemma timer_app (a b : list Effect) :
  forall live live', timer live a = Some live' -> timer live (a ++ b) = timer live' b.
Proof.
  induction a as [|e a IH]; intros live live'; simpl.
  - intros [= ->]. reflexivity.
  - destruct e as [j | text | j | j]; destruct live as [k|]; try discriminate;
      try (destruct (str_eqb k j); try discriminate); apply IH.
Qed.

(** One event keeps the discipline, from the interval running before it to
    the interval running after it. *)
Lemma fire_timer (e : Event) (st st' : Client) (effects : list Effect) :
  invariant st -> fire e st = Some (st', effects) ->
  timer (pollRef st) effects = Some (pollRef st').
Proof.
  intros (_ & _ & _ & Hp) Hfire.
  destruct e as [text | | reply | | reply]; simpl in Hfire.
  - apply some_pair_eq in Hfire as [-> ->]. reflexivity.
  - apply some_pair_eq in Hfire as [-> ->].
    destruct (blocked st); [reflexivity|].
    unfold submit, andThen, stopPolling.
    destruct (pollRef st) eqn:Href; simpl; rewrite ?Href; simpl;
      rewrite ?JsFacts.str_eqb_refl; reflexivity.
  - destruct (appState st) eqn:Happ; try discriminate.
    apply some_pair_eq in Hfire as [-> ->].
    assert (Href : pollRef st = None).
    { apply (PageFacts.nothing_unless _ _ _ Hp). congruence. }
    unfold settle.
    destruct reply as [msg | code [msg | | data]]; try destruct (ok code);
      simpl; rewrite Href; reflexivity.
  - apply some_pair_eq in Hfire as [-> ->].
    unfold handleReset, andThen, stopPolling.
    destruct (pollRef st) eqn:Href; simpl; rewrite ?Href; simpl;
      rewrite ?JsFacts.str_eqb_refl; reflexivity.
  - destruct (pollRef st) as [jobId|] eqn:Href; [|discriminate].
    apply some_pair_eq in Hfire as [-> ->].
    unfold pollStatus, andThen, stopPolling.
    destruct reply as [msg | code [msg | | data]]; try destruct (ok code);
      simpl; rewrite ?JsFacts.str_eqb_refl; try (rewrite Href; reflexivity).
    destruct (Js.truthy (orElse (pr_message data) []));
      destruct (pr_status data); simpl; rewrite ?Href; simpl;
      rewrite ?JsFacts.str_eqb_refl; reflexivity.
Qed.

Lemma runTrace_timer (events : list Event) :
  forall st st' effects,
    reachable st -> runTrace events st = Some (st', effects) ->
    timer (pollRef st) effects = Some (pollRef st').
Proof.
  induction events as [|e rest IH]; intros st st' effects Hreach; simpl.
  - intros [= -> <-]. reflexivity.
  - destruct (fire e st) as [[st1 first]|] eqn:Hfire; [|discriminate].
    destruct (runTrace rest st1) as [[st2 later]|] eqn:Hrest; [|discriminate].
    intros [= <- <-].
    pose proof (PageFacts.invariant_reachable anyEvent st Hreach) as Hinv.
    rewrite (timer_app first later _ _ (fire_timer e st st1 first Hinv Hfire)).
    apply (IH st1 st2 later); [|exact Hrest].
    apply (via_step anyEvent st e st1 Hreach I).
    exact (step_fire st e st1 first Hfire).
Qed.

(** X5. Over any sequence of events from the first render, the timer is used
    with discipline: an interval is set only when none is running, so none
    is ever left running unreferenced; the interval cleared is always the
    running one; every status request is for the job of the running
    interval; a submission is sent only while no interval runs; and the
    interval running at the end is the one [pollRef] holds. *)
Theorem intervals_never_leak (events : list Event) (st : Client)
  (effects : list Effect) :
  runTrace events initial = Some (st, effects) ->
  timer None effects = Some (pollRef st).
Proof.
  intros Hrun.
  exact (runTrace_timer events initial st effects (via_initial anyEvent) Hrun).
Qed.

Lemma intervals_never_leak_witness :
  runTrace (submitted
              ++ [Tick (reported job_processing 30 None None);
                  Tick (reported job_done 100 (Some (lit "/videos/j1.mp4")) None);
                  ClickGenerate; Answer (accepted "j2"); ClickReset])
    initial
  = Some (fst (setScript (lit "hi") initial),
          [FetchGenerate (lit "hi"); SetInterval (lit "j1");
           FetchStatus (lit "j1"); FetchStatus (lit "j1"); ClearInterval (lit "j1");
           FetchGenerate (lit "hi"); SetInterval (lit "j2");
           ClearInterval (lit "j2")])
  /\ timer None
       [FetchGenerate (lit "hi"); SetInterval (lit "j1");
        FetchStatus (lit "j1"); FetchStatus (lit "j1"); ClearInterval (lit "j1");
        FetchGenerate (lit "hi"); SetInterval (lit "j2");
        ClearInterval (lit "j2")]
     = Some None.
Proof.
  split; [reflexivity|].
  apply (intervals_never_leak
           (submitted
              ++ [Tick (reported job_processing 30 None None);
                  Tick (reported job_done 100 (Some (lit "/videos/j1.mp4")) None);
                  ClickGenerate; Answer (accepted "j2"); ClickReset])
           (fst (setScript (lit "hi") initial))).
  reflexivity.
Defined.

End TimerFacts.

Module StepFacts.
Import PageView.

Ltac compare_thresholds :=
  repeat match goal with
         | |- context [?a <=? ?b] => destruct (Z.leb_spec a b); try lia
         | |- context [?a <? ?b] => destruct (Z.ltb_spec a b); try lia
         end.

Lemma previousThreshold_STEPS :
  List.map previousThreshold STEPS = [0; 30; 45; 55; 90].
Proof. reflexivity. Qed.

(** The look of the five dots, by the band the progress falls in. *)
Lemma ProgressSteps_bands (progress : Z) :
  ProgressSteps progress =
  if progress <? 0 then [Upcoming; Upcoming; Upcoming; Upcoming; Upcoming]
  else if progress <? 30 then [Active; Upcoming; Upcoming; Upcoming; Upcoming]
  else if progress <? 45 then [Done; Active; Upcoming; Upcoming; Upcoming]
  else if progress <? 55 then [Done; Done; Active; Upcoming; Upcoming]
  else if progress <? 90 then [Done; Done; Done; Active; Upcoming]
  else if progress <? 100 then [Done; Done; Done; Done; Active]
  else [Done; Done; Done; Done; Done].
Proof.
  unfold ProgressSteps, STEPS, tone, stepDone, stepActive.
  cbn [List.map threshold].
  change (previousThreshold {| label := lit "Voiceover"; threshold := 30 |}) with 0.
  change (previousThreshold {| label := lit "Analysis"; threshold := 45 |}) with 30.
  change (previousThreshold {| label := lit "Subtitles"; threshold := 55 |}) with 45.
  change (previousThreshold {| label := lit "Rendering"; threshold := 90 |}) with 55.
  change (previousThreshold {| label := lit "Done"; threshold := 100 |}) with 90.
  compare_thresholds; reflexivity.
Qed.

(** X8. For every progress value the dots read, in order: done dots, then at
    most one active dot, then upcoming dots.  Exactly one dot is active when
    0 <= progress < 100; none is active, and all are done, from 100 on; none
    is done or active below 0.  A dot that is done stays done when the
    progress grows. *)
Theorem dots_show_one_active_step (progress : Z) :
  (exists k rest,
     ProgressSteps progress = repeat Done k ++ rest
     /\ (rest = [] \/ rest = repeat Upcoming (5 - k)
         \/ rest = Active :: repeat Upcoming (4 - k))
     /\ (k <= 5)%nat)
  /\ (0 <= progress < 100 ->
      List.length (List.filter (fun t => match t with Active => true | _ => false end)
                     (ProgressSteps progress)) = 1%nat)
  /\ (100 <= progress -> ProgressSteps progress = repeat Done 5)
  /\ (progress < 0 -> ProgressSteps progress = repeat Upcoming 5)
  /\ (forall later step,
        progress <= later -> stepDone progress step = true ->
        stepDone later step = true).
Proof.
  rewrite ProgressSteps_bands.
  split; [|split; [|split; [|split]]].
  - compare_thresholds.
    + exists 0%nat, (repeat Upcoming 5). split; [reflexivity|]; split; [|lia]; first [now left | right; now left | right; now right].
    + exists 0%nat, (Active :: repeat Upcoming 4). split; [reflexivity|]; split; [|lia]; first [now left | right; now left | right; now right].
    + exists 1%nat, (Active :: repeat Upcoming 3). split; [reflexivity|]; split; [|lia]; first [now left | right; now left | right; now right].
    + exists 2%nat, (Active :: repeat Upcoming 2). split; [reflexivity|]; split; [|lia]; first [now left | right; now left | right; now right].
    + exists 3%nat, (Active :: repeat Upcoming 1). split; [reflexivity|]; split; [|lia]; first [now left | right; now left | right; now right].
    + exists 4%nat, (Active :: repeat Upcoming 0). split; [reflexivity|]; split; [|lia]; first [now left | right; now left | right; now right].
    + exists 5%nat, []. split; [reflexivity|]; split; [|lia]; first [now left | right; now left | right; now right].
  - intros Hp. compare_thresholds; reflexivity.
  - intros Hp. compare_thresholds; reflexivity.
  - intros Hp. compare_thresholds; reflexivity.
  - unfold stepDone. intros later step Hle Hdone.
    apply Z.leb_le in Hdone. apply Z.leb_le. lia.
Qed.

Lemma dots_show_one_active_step_witness :
  ProgressSteps 55 = [Done; Done; Done; Active; Upcoming]
  /\ List.length (List.filter (fun t => match t with Active => true | _ => false end)
                    (ProgressSteps 55)) = 1%nat
  /\ ProgressSteps 100 = repeat Done 5.
Proof.
  destruct (dots_show_one_active_step 55) as (_ & Hone & _).
  destruct (dots_show_one_active_step 100) as (_ & _ & Hall & _).
  split; [reflexivity|]. split; [apply Hone; lia | apply Hall; lia].
Defined.

End StepFacts.

Module DownloadFacts.
Import Page PageView.

(** X9. A download does nothing at all unless a non-empty video URL is
    stored; whenever the preview, with its download button, is rendered one
    is stored.  The download then fetches exactly the stored URL, once, and
    either saves the body under the name clipforge-video.mp4 - whatever the
    status of the response - and leaves nothing behind (the anchor is
    removed, the object URL is revoked), or shows the alert without touching
    the document. *)
Theorem download_fetches_the_stored_url (outcome : VideoFetch) (st : Client) :
  (shown (videoUrl st) = false -> handleDownload outcome st = [])
  /\ (showsVideo st = true ->
      exists url, videoUrl st = Some url /\ Js.truthy url = true)
  /\ (forall url,
        videoUrl st = Some url -> Js.truthy url = true ->
        exists rest,
          handleDownload outcome st = FetchVideo url :: rest
          /\ (forall other, ~ In (FetchVideo other) rest)
          /\ match outcome with
             | BlobArrives _ blob objectUrl =>
                 In (ClickAnchor objectUrl downloadName) rest
                 /\ forall text, ~ In (Alert text) rest
             | _ => rest = [Alert downloadFailed]
             end)
  /\ leftOver [] [] (handleDownload outcome st) = ([], []).
Proof.
  unfold handleDownload, shown, showsVideo.
  split; [|split; [|split]].
  - destruct (videoUrl st) as [url|]; [|reflexivity]. now intros ->.
  - destruct (appState st); try discriminate.
    destruct (videoUrl st) as [url|]; [|discriminate].
    intros Htruthy. now exists url.
  - intros url -> Htruthy. rewrite Htruthy. cbn [negb].
    destruct outcome as [| status | status blob objectUrl];
      eexists; (split; [reflexivity|]); split; try reflexivity.
    + intros other [H | []]. discriminate.
    + intros other [H | []]. discriminate.
    + intros other Hin. simpl in Hin.
      repeat (destruct Hin as [Hin | Hin]; [discriminate|]). exact Hin.
    + split.
      * simpl. auto.
      * intros text Hin. simpl in Hin.
        repeat (destruct Hin as [Hin | Hin]; [discriminate|]). exact Hin.
  - destruct (videoUrl st) as [url|]; [|reflexivity].
    destruct (Js.truthy url); [|reflexivity]. cbn [negb].
    destruct outcome as [| status | status blob objectUrl]; try reflexivity.
    simpl. now rewrite JsFacts.str_eqb_refl.
Qed.

Lemma download_fetches_the_stored_url_witness :
  handleDownload FetchRejects doneWithoutUrl = []
  /\ (exists url, videoUrl doneWithUrl = Some url /\ Js.truthy url = true)
  /\ exists rest,
       handleDownload FetchRejects doneWithUrl
       = FetchVideo (lit "/videos/j1.mp4") :: rest
       /\ rest = [Alert downloadFailed].
Proof.
  destruct (download_fetches_the_stored_url FetchRejects doneWithoutUrl)
    as (Hnone & _).
  destruct (download_fetches_the_stored_url FetchRejects doneWithUrl)
    as (_ & Hshown & Hfetch & _).
  split; [apply Hnone; reflexivity|].
  split; [apply Hshown; reflexivity|].
  destruct (Hfetch (lit "/videos/j1.mp4") eq_refl eq_refl) as (rest & H1 & _ & H3).
  exists rest. split; assumption.
Defined.

End DownloadFacts.

(* ========================================================================= *)
(** * Further properties of the routes                                        *)
(* ========================================================================= *)

Module JsonFacts.
Import Json.

Lemma lookup_assign_same (k : jsstring) (v : json) (fields : list (jsstring * json)) :
  lookup k (assign k v fields) = Some v.
Proof.
  induction fields as [|[k' v'] rest IH]; simpl.
  - now rewrite JsFacts.str_eqb_refl.
  - destruct (str_eqb k' k) eqn:Hk; simpl; rewrite Hk; [reflexivity | exact IH].
Qed.

Lemma lookup_assign_other (k other : jsstring) (v : json)
  (fields : list (jsstring * json)) :
  other <> k -> lookup other (assign k v fields) = lookup other fields.
Proof.
  intros Hneq.
  assert (Hk : str_eqb k other = false).
  { destruct (str_eqb k other) eqn:H; [|reflexivity].
    apply JsFacts.str_eqb_eq in H. congruence. }
  induction fields as [|[k' v'] rest IH]; simpl.
  - now rewrite Hk.
  - destruct (str_eqb k' k) eqn:Hk'; simpl.
    + apply JsFacts.str_eqb_eq in Hk'. subst k'. now rewrite Hk.
    + now rewrite IH.
Qed.

Lemma assign_keys (k : jsstring) (v : json) (fields : list (jsstring * json)) :
  lookup k fields <> None ->
  List.map fst (assign k v fields) = List.map fst fields.
Proof.
  induction fields as [|[k' v'] rest IH]; simpl; [congruence|].
  destruct (str_eqb k' k) eqn:Hk; simpl; [reflexivity|].
  intros H. now rewrite IH.
Qed.

Lemma startsWith_app_l (b u p : jsstring) :
  startsWith b p = true -> startsWith (b ++ u) p = true.
Proof.
  revert b; induction p as [|c p IH]; intros b; simpl; [reflexivity|].
  destruct b as [|d b]; simpl; [discriminate|].
  intros H. apply andb_true_iff in H as [Hd Hb].
  rewrite Hd. simpl. now apply IH.
Qed.

End JsonFacts.

Module StatusRouteFacts.
Import Json.

(** X10. When the status route rewrites a body, it touches the [url] field
    and nothing else: every other property reads as before, the keys of the
    object and their order are unchanged, and [url] reads as [BACKEND_URL]
    followed by the old value - which happens exactly for a [url] that is a
    non-empty string not starting with "http"; in every other case the body
    is returned as it is. *)
Theorem rewrite_touches_url_only (env : option jsstring) (data data' : json) :
  StatusRoute.rewriteUrl env data = Some data' ->
  (forall k, k <> lit "url" -> getProp data' k = getProp data k)
  /\ (forall fields fields',
        data = JObj fields -> data' = JObj fields' ->
        List.map fst fields' = List.map fst fields)
  /\ (forall u,
        getProp data (lit "url") = Value (JStr u) ->
        Js.truthy u = true -> startsWith u (lit "http") = false ->
        getProp data' (lit "url")
        = Value (JStr (StatusRoute.BACKEND_URL env ++ u)))
  /\ ((forall u, getProp data (lit "url") = Value (JStr u) ->
                 Js.truthy u = false \/ startsWith u (lit "http") = true) ->
      data' = data).
Proof.
  intros Hrewrite.
  split; [|split; [|split]].
  - intros k Hk.
    destruct (RouteFacts.rewriteUrl_cases env data data' Hrewrite)
      as [-> | (u & Hurl & _ & _ & ->)]; [reflexivity|].
    destruct data as [| | | | |fields]; try discriminate.
    simpl. now rewrite JsonFacts.lookup_assign_other.
  - intros fields fields' -> ->.
    destruct (RouteFacts.rewriteUrl_cases env _ _ Hrewrite)
      as [Heq | (u & Hurl & _ & _ & Heq)].
    + congruence.
    + simpl in Heq, Hurl.
      assert (Hf : fields' = assign (lit "url")
                     (JStr (StatusRoute.BACKEND_URL env ++ u)) fields) by congruence.
      rewrite Hf. apply JsonFacts.assign_keys.
      destruct (lookup (lit "url") fields); congruence.
  - intros u Hurl Htruthy Hrel.
    unfold StatusRoute.rewriteUrl in Hrewrite. rewrite Hurl in Hrewrite.
    cbn [truthy] in Hrewrite. rewrite Htruthy, Hrel in Hrewrite.
    cbn [negb] in Hrewrite.
    assert (Heq : data' = setProp data (lit "url")
                    (JStr (StatusRoute.BACKEND_URL env ++ u))) by congruence.
    rewrite Heq. destruct data as [| | | | |fields]; try discriminate.
    simpl. now rewrite JsonFacts.lookup_assign_same.
  - intros Hall.
    destruct (RouteFacts.rewriteUrl_cases env data data' Hrewrite)
      as [-> | (u & Hurl & Htruthy & Hrel & _)]; [reflexivity|].
    destruct (Hall u Hurl); congruence.
Qed.

Lemma rewrite_touches_url_only_witness :
  getProp Proxy.doneBodyRewritten (lit "status") = getProp Proxy.doneBody (lit "status")
  /\ getProp Proxy.doneBodyRewritten (lit "url")
     = Value (JStr (lit "http://localhost:8000" ++ lit "/videos/j1.mp4")).
Proof.
  destruct (rewrite_touches_url_only None Proxy.doneBody Proxy.doneBodyRewritten
              eq_refl) as (Hother & _ & Hurl & _).
  split.
  - apply Hother. discriminate.
  - exact (Hurl (lit "/videos/j1.mp4") eq_refl eq_refl eq_refl).
Defined.

(** X11. Provided the configured back-end URL starts with "http" (the status
    route puts no prefix in front of it), a body that went through the
    rewriting is stable under it - rewriting twice gives the same as once -
    and its [url], when a non-empty string, starts with "http". *)
Theorem rewrite_is_stable (env : option jsstring) (data data' : json) :
  startsWith (StatusRoute.BACKEND_URL env) (lit "http") = true ->
  StatusRoute.rewriteUrl env data = Some data' ->
  StatusRoute.rewriteUrl env data' = Some data'
  /\ forall u, getProp data' (lit "url") = Value (JStr u) ->
               Js.truthy u = true -> startsWith u (lit "http") = true.
Proof.
  intros Hbase Hrewrite.
  assert (Habs : forall u, getProp data' (lit "url") = Value (JStr u) ->
                           Js.truthy u = true -> startsWith u (lit "http") = true).
  { intros u Hurl Htruthy.
    destruct (startsWith u (lit "http")) eqn:Hu; [reflexivity|].
    destruct (RouteFacts.rewriteUrl_cases env data data' Hrewrite)
      as [-> | (u0 & Hurl0 & _ & _ & ->)].
    - unfold StatusRoute.rewriteUrl in Hrewrite. rewrite Hurl in Hrewrite.
      cbn [truthy] in Hrewrite. rewrite Htruthy, Hu in Hrewrite.
      cbn [negb] in Hrewrite.
      destruct data as [| | | | |fields]; try discriminate.
      simpl in Hurl, Hrewrite.
      pose proof (JsonFacts.lookup_assign_same (lit "url")
                    (JStr (StatusRoute.BACKEND_URL env ++ u)) fields) as Hnew.
      assert (Hf : assign (lit "url")
                     (JStr (StatusRoute.BACKEND_URL env ++ u)) fields = fields)
        by congruence.
      rewrite Hf in Hnew. rewrite Hnew in Hurl.
      assert (Hsame : StatusRoute.BACKEND_URL env ++ u = u) by congruence.
      rewrite <- Hsame in Hu.
      rewrite (JsonFacts.startsWith_app_l _ u _ Hbase) in Hu. discriminate.
    - destruct data as [| | | | |fields]; try discriminate.
      simpl in Hurl. rewrite JsonFacts.lookup_assign_same in Hurl.
      assert (Hsame : StatusRoute.BACKEND_URL env ++ u0 = u) by congruence.
      rewrite <- Hsame in Hu.
      rewrite (JsonFacts.startsWith_app_l _ u0 _ Hbase) in Hu. discriminate. }
  split; [|exact Habs].
  destruct (RouteFacts.rewriteUrl_cases env data data' Hrewrite)
    as [-> | (u0 & Hurl0 & _ & _ & Heq)]; [exact Hrewrite|].
  destruct data as [| | | | |fields]; try discriminate.
  assert (Hurl : getProp data' (lit "url")
                 = Value (JStr (StatusRoute.BACKEND_URL env ++ u0))).
  { subst data'. simpl. now rewrite JsonFacts.lookup_assign_same. }
  apply (RouteFacts.rewriteUrl_absolute env data' _ Hurl).
  now apply JsonFacts.startsWith_app_l.
Qed.

Lemma rewrite_is_stable_witness :
  StatusRoute.rewriteUrl None Proxy.doneBodyRewritten = Some Proxy.doneBodyRewritten.
Proof.
  exact (proj1 (rewrite_is_stable None Proxy.doneBody Proxy.doneBodyRewritten
                  eq_refl eq_refl)).
Defined.

Lemma rewriteUrl_throws_iff (env : option jsstring) (data : json) :
  StatusRoute.rewriteUrl env data = None <-> Shapes.urlThrows data = true.
Proof.
  unfold StatusRoute.rewriteUrl, Shapes.urlThrows, getProp.
  destruct data as [| b | n | s | items | fields]; try (split; discriminate).
  - split; reflexivity.
  - destruct (lookup (lit "url") fields) as [v|]; [|split; discriminate].
    destruct v as [| b | n | u | items | fs]; cbn [truthy];
      try (split; (discriminate || reflexivity)).
    + destruct b; split; (discriminate || reflexivity).
    + destruct (n =? 0); split; (discriminate || reflexivity).
    + destruct (Js.truthy u); [|split; discriminate].
      destruct (startsWith u (lit "http")); split; discriminate.
Qed.

(** X12. The status route answers with its own 502 "Could not reach the
    backend." when the back end cannot be reached or its body does not
    parse, and also when the back end did answer with a body that is
    [null] or whose [url] is truthy without being a string.  For every other
    answer of the back end the route responds under the back end's status
    code. *)
Theorem status_route_gives_up (env : option jsstring) (jobId : jsstring) :
  snd (StatusRoute.GET env jobId Unreachable) = StatusRoute.unreachable
  /\ (forall status,
        snd (StatusRoute.GET env jobId (Replied status None))
        = StatusRoute.unreachable)
  /\ (forall status data,
        Shapes.urlThrows data = true ->
        snd (StatusRoute.GET env jobId (Replied status (Some data)))
        = StatusRoute.unreachable)
  /\ (forall status data,
        Shapes.urlThrows data = false ->
        exists data',
          StatusRoute.rewriteUrl env data = Some data'
          /\ snd (StatusRoute.GET env jobId (Replied status (Some data)))
             = respond data' status)
  /\ resStatus StatusRoute.unreachable = 502.
Proof.
  repeat split.
  - intros status data Hthrows. apply rewriteUrl_throws_iff with (env := env) in Hthrows.
    unfold StatusRoute.GET. now rewrite Hthrows.
  - intros status data Hfine.
    destruct (StatusRoute.rewriteUrl env data) as [data'|] eqn:Hrewrite.
    + exists data'. split; [reflexivity|]. now apply RouteFacts.GET_replied.
    + apply rewriteUrl_throws_iff in Hrewrite. congruence.
Qed.

Lemma status_route_gives_up_witness :
  snd (StatusRoute.GET None (lit "j1") (Replied 200 (Some Shapes.numericUrl)))
  = StatusRoute.unreachable
  /\ exists data',
       snd (StatusRoute.GET None (lit "j1") (Replied 404 (Some Proxy.notFoundBody)))
       = respond data' 404.
Proof.
  destruct (status_route_gives_up None (lit "j1")) as (_ & _ & Hthrows & Hfine & _).
  split; [exact (Hthrows 200 Shapes.numericUrl eq_refl)|].
  destruct (Hfine 404 Proxy.notFoundBody eq_refl) as (data' & _ & H).
  now exists data'.
Defined.

End StatusRouteFacts.

Module GenerateRouteFacts.
Import Json.

(** X13. The generate route contacts the back end only for a request body
    that parses and is not [null]; it then sends exactly one POST to
    [BACKEND_URL/jobs], whose payload has the [text] of the request body
    (absent if the body has none) and no other property.  For a body that
    does not parse, or is [null], it answers 502 without contacting the
    back end. *)
Theorem generate_route_sends_text_only (env : option jsstring) (up : Upstream) :
  GenerateRoute.POST env None up = ([], GenerateRoute.unreachable)
  /\ GenerateRoute.POST env (Some JNull) up = ([], GenerateRoute.unreachable)
  /\ forall body,
       body <> JNull ->
       exists payload,
         fst (GenerateRoute.POST env (Some body) up)
         = [ {| reqMethod := lit "POST";
                reqUrl := GenerateRoute.BACKEND_URL env ++ lit "/jobs";
                reqBody := Some payload |} ]
         /\ getProp payload (lit "text") = getProp body (lit "text")
         /\ forall k, k <> lit "text" -> getProp payload k = Undefined.
Proof.
  split; [reflexivity|]. split; [reflexivity|].
  intros body Hbody.
  assert (Hother : forall k v, k <> lit "text" ->
            getProp (JObj [(lit "text", v)]) k = Undefined).
  { intros k v Hk. cbn [getProp lookup].
    destruct (str_eqb (lit "text") k) eqn:Heq; [|reflexivity].
    apply JsFacts.str_eqb_eq in Heq. congruence. }
  unfold GenerateRoute.POST, GenerateRoute.forwarded.
  destruct (getProp body (lit "text")) as [| | v] eqn:Htext.
  - destruct body as [| | | | |fields]; cbn [getProp] in Htext;
      try discriminate; [congruence|].
    destruct (lookup (lit "text") fields); discriminate.
  - exists (JObj []). destruct up as [| status [data|]]; repeat split.
  - exists (JObj [(lit "text", v)]).
    destruct up as [| status [data|]]; repeat split; auto.
Qed.

Lemma generate_route_sends_text_only_witness :
  exists payload,
    fst (GenerateRoute.POST None (Some Proxy.submission) Unreachable)
    = [ {| reqMethod := lit "POST";
           reqUrl := GenerateRoute.BACKEND_URL None ++ lit "/jobs";
           reqBody := Some payload |} ]
    /\ getProp payload (lit "text") = Value (JStr (lit "hi"))
    /\ getProp payload (lit "voice") = Undefined.
Proof.
  destruct (proj2 (proj2 (generate_route_sends_text_only None Unreachable))
              Proxy.submission) as (payload & Hsent & Htext & Hother).
  - discriminate.
  - exists payload. split; [exact Hsent|]. split; [exact Htext|].
    apply Hother. discriminate.
Defined.

Lemma startsWith_prefix (p q : jsstring) :
  forall s, startsWith s (p ++ q) = true -> startsWith s p = true.
Proof.
  induction p as [|c p IH]; intros s; simpl; [reflexivity|].
  destruct s as [|d s]; [discriminate|].
  intros H. apply andb_true_iff in H as [Hd Hs].
  rewrite Hd. simpl. now apply IH.
Qed.

Lemma http_of_protocol (url : jsstring) :
  Proxy.hasProtocol url = true -> startsWith url (lit "http") = true.
Proof.
  unfold Proxy.hasProtocol. intros H. apply orb_true_iff in H as [H | H].
  - exact (startsWith_prefix (lit "http") (lit "://") url H).
  - exact (startsWith_prefix (lit "http") (lit "s://") url H).
Qed.

(** X14. The normalisation of the back-end URL in the generate route leaves
    a value with a protocol prefix as it is, defaults to
    http://localhost:8000 when nothing is configured, and is stable: applied
    to its own result it changes nothing. *)
Theorem backend_url_is_stable (env : option jsstring) :
  GenerateRoute.BACKEND_URL (Some (GenerateRoute.BACKEND_URL env))
  = GenerateRoute.BACKEND_URL env
  /\ GenerateRoute.BACKEND_URL None = lit "http://localhost:8000"
  /\ (Proxy.hasProtocol (GenerateRoute.raw env) = true ->
      GenerateRoute.BACKEND_URL env = GenerateRoute.raw env).
Proof.
  destruct (RouteFacts.BACKEND_URL_starts_with_http env) as (Hhttp & _ & Hkeep).
  split; [|split].
  - unfold GenerateRoute.BACKEND_URL at 1. cbn [GenerateRoute.raw].
    now rewrite Hhttp.
  - reflexivity.
  - intros Hproto. apply Hkeep. now apply http_of_protocol.
Qed.

Lemma backend_url_is_stable_witness :
  GenerateRoute.BACKEND_URL (Some (lit "https://api.example.com"))
  = lit "https://api.example.com".
Proof.
  exact (proj2 (proj2 (backend_url_is_stable (Some (lit "https://api.example.com"))))
           eq_refl).
Defined.

(** X15. The two routes target the same back end exactly when the
    configured value starts with "http" (or nothing is configured): only the
    generate route puts https:// in front of a bare host, the status route
    uses the value as it is. *)
Theorem routes_agree_on_backend (env : option jsstring) :
  GenerateRoute.BACKEND_URL env = StatusRoute.BACKEND_URL env
  <-> startsWith (GenerateRoute.raw env) (lit "http") = true.
Proof.
  assert (Hraw : StatusRoute.BACKEND_URL env = GenerateRoute.raw env)
    by reflexivity.
  rewrite Hraw. unfold GenerateRoute.BACKEND_URL.
  destruct (startsWith (GenerateRoute.raw env) (lit "http")) eqn:H.
  - split; reflexivity.
  - split; [|discriminate]. intros Heq.
    apply (f_equal (@List.length N)) in Heq. rewrite length_app in Heq.
    simpl in Heq. lia.
Qed.

Lemma routes_agree_on_backend_witness :
  GenerateRoute.BACKEND_URL None = StatusRoute.BACKEND_URL None
  /\ GenerateRoute.BACKEND_URL (Some (lit "api.example.com"))
     <> StatusRoute.BACKEND_URL (Some (lit "api.example.com")).
Proof.
  split.
  - apply (proj2 (routes_agree_on_backend None)). reflexivity.
  - intros Heq.
    apply (proj1 (routes_agree_on_backend (Some (lit "api.example.com")))) in Heq.
    discriminate.
Defined.

End GenerateRouteFacts.

Module WiringFacts.
Import Json Page.

Lemma submissions_app (a b : list Effect) :
  Timer.submissions (a ++ b) = Timer.submissions a ++ Timer.submissions b.
Proof.
  induction a as [|e a IH]; simpl; [reflexivity|].
  destruct e; simpl; now rewrite IH.
Qed.

(** What one event submits: nothing, or the script, which then passes the
    guard. *)
Lemma fire_submissions (e : Event) (st st' : Client) (effects : list Effect) :
  fire e st = Some (st', effects) ->
  Forall (fun text => blocked st = false /\ text = script st)
    (Timer.submissions effects).
Proof.
  intros Hfire. destruct e as [text | | reply | | reply]; simpl in Hfire.
  - apply TimerFacts.some_pair_eq in Hfire as [-> ->]. constructor.
  - apply TimerFacts.some_pair_eq in Hfire as [-> ->].
    destruct (blocked st) eqn:Hb; [constructor|].
    unfold submit, andThen, stopPolling.
    destruct (pollRef st); simpl; repeat constructor.
  - destruct (appState st); try discriminate.
    apply TimerFacts.some_pair_eq in Hfire as [-> ->]. unfold settle.
    destruct reply as [msg | code [msg | | data]]; try destruct (ok code);
      simpl; constructor.
  - apply TimerFacts.some_pair_eq in Hfire as [-> ->].
    unfold handleReset, andThen, stopPolling.
    destruct (pollRef st); simpl; constructor.
  - destruct (pollRef st) as [jobId|] eqn:Href; [|discriminate].
    apply TimerFacts.some_pair_eq in Hfire as [-> ->].
    unfold pollStatus, andThen, stopPolling.
    destruct reply as [msg | code [msg | | data]]; try destruct (ok code);
      simpl; try constructor.
    destruct (Js.truthy (orElse (pr_message data) []));
      destruct (pr_status data); simpl; rewrite ?Href; simpl; constructor.
Qed.

(** A text that passes the guard. *)
Lemma unblocked_text (st : Client) :
  blocked st = false ->
  Z.of_nat (List.length (script st)) <= MAX_CHARS /\ ~ whitespaceOnly (script st).
Proof.
  rewrite PageFacts.guard_canGenerate, negb_false_iff.
  intros Hcan. exact (ButtonFacts.canGenerate_script st Hcan).
Qed.

Lemma runTrace_submissions (events : list Event) :
  forall st st' effects,
    Timer.runTrace events st = Some (st', effects) ->
    Forall (fun text => Z.of_nat (List.length text) <= MAX_CHARS
                        /\ ~ whitespaceOnly text)
      (Timer.submissions effects).
Proof.
  induction events as [|e rest IH]; intros st st' effects; simpl.
  - intros [= _ <-]. constructor.
  - destruct (fire e st) as [[st1 first]|] eqn:Hfire; [|discriminate].
    destruct (Timer.runTrace rest st1) as [[st2 later]|] eqn:Hrest; [|discriminate].
    intros [= _ <-]. rewrite submissions_app. apply Forall_app. split.
    + eapply Forall_impl; [|exact (fire_submissions e st st1 first Hfire)].
      intros text [Hb ->]. now apply unblocked_text.
    + exact (IH st1 st2 later Hrest).
Qed.

(** X16. Page and generate route together: over any sequence of events from
    the first render, every request that reaches the back end for a
    submission is a POST to [BACKEND_URL/jobs] whose body is [{ text }] with
    a text of at most [MAX_CHARS] characters that is not blank - the script
    as it was typed when Generate was clicked. *)
Theorem only_valid_scripts_reach_the_backend (env : option jsstring)
  (up : Upstream) (events : list Event) (st : Client) (effects : list Effect) :
  Timer.runTrace events initial = Some (st, effects) ->
  Forall (fun request =>
            exists text,
              request = {| reqMethod := lit "POST";
                           reqUrl := GenerateRoute.BACKEND_URL env ++ lit "/jobs";
                           reqBody := Some (JObj [(lit "text", JStr text)]) |}
              /\ In text (Timer.submissions effects)
              /\ Z.of_nat (List.length text) <= MAX_CHARS
              /\ ~ whitespaceOnly text)
    (Wiring.routeRequests env up effects).
Proof.
  intros Hrun.
  pose proof (runTrace_submissions events initial st effects Hrun) as Hvalid.
  rewrite Forall_forall in Hvalid.
  apply Forall_forall. intros request Hin.
  unfold Wiring.routeRequests in Hin. apply in_flat_map in Hin as (text & Htext & Hin).
  exists text.
  assert (Hsent : fst (GenerateRoute.POST env (Some (Wiring.generateRequestBody text)) up)
                  = [ {| reqMethod := lit "POST";
                         reqUrl := GenerateRoute.BACKEND_URL env ++ lit "/jobs";
                         reqBody := Some (JObj [(lit "text", JStr text)]) |} ]).
  { destruct up as [| status [data|]]; reflexivity. }
  rewrite Hsent in Hin. destruct Hin as [<- | []].
  destruct (Hvalid text Htext) as [Hlen Hblank].
  repeat split; assumption.
Qed.

Lemma only_valid_scripts_reach_the_backend_witness :
  Wiring.routeRequests None Unreachable
    [FetchGenerate (lit "hi"); SetInterval (lit "j1")]
  = [ {| reqMethod := lit "POST";
         reqUrl := lit "http://localhost:8000/jobs";
         reqBody := Some (JObj [(lit "text", JStr (lit "hi"))]) |} ]
  /\ Forall (fun request =>
               exists text,
                 request = {| reqMethod := lit "POST";
                              reqUrl := GenerateRoute.BACKEND_URL None ++ lit "/jobs";
                              reqBody := Some (JObj [(lit "text", JStr text)]) |}
                 /\ In text (Timer.submissions
                               [FetchGenerate (lit "hi"); SetInterval (lit "j1")])
                 /\ Z.of_nat (List.length text) <= MAX_CHARS
                 /\ ~ whitespaceOnly text)
       (Wiring.routeRequests None Unreachable
          [FetchGenerate (lit "hi"); SetInterval (lit "j1")]).
Proof.
  split; [reflexivity|].
  apply (only_valid_scripts_reach_the_backend None Unreachable submitted polling).
  reflexivity.
Defined.

End WiringFacts.
